(** * Sudoku generator of [Zad_8/Zad_8.py]: model and verification

    The Python module builds a solved 9x9 board with a randomised
    backtracking search ([solve_one]), digs blanks into it while a bounded
    solution counter ([count_solutions]) certifies uniqueness
    ([remove_cells_unique]) and repeats this a few times
    ([generate_puzzle]).

    The embedding is shallow.  Python integers are [Z]; a grid is a list of
    rows; the three mask arrays are lists of nine integers.  The functions
    that mutate their arguments in place are written in state-passing style:
    they take the contents of the mutated objects and return the contents
    those objects have when the call returns.  Exceptions are a constructor
    of the result type.  The two recursive closures carry a fuel argument;
    running out of fuel is a separate outcome and is proved unreachable. *)

From Stdlib Require Import ZArith List Lia Bool Permutation Sorted Ascii String.
From stdpp Require Import base list strings pretty.

Local Open Scope Z_scope.

(** ** Outcomes of a call *)

Inductive exn : Type :=
| ValueError
| RuntimeError
| AssertionError.

Inductive result (A : Type) : Type :=
| Ok (a : A)
| Raise (e : exn)
| OutOfFuel.

Arguments Ok {A} a.
Arguments Raise {A} e.
Arguments OutOfFuel {A}.

#[global] Instance result_ret : MRet result := fun A a => Ok a.

#[global] Instance result_bind : MBind result := fun A B f x =>
  match x with
  | Ok a => f a
  | Raise e => Raise e
  | OutOfFuel => OutOfFuel
  end.

(** ** Grids and masks *)

Abbreviation Grid := (list (list Z)).

(** [grid[r][c]].  A grid is a 9x9 board (the [Grid] of the source) and
    the indices come from [range(9)], so the read is in range. *)
Definition cell (grid : Grid) (r c : nat) : Z :=
  match grid !! r with
  | Some rw => match rw !! c with Some v => v | None => 0 end
  | None => 0
  end.

(** [grid[r][c] = v]. *)
Definition grid_set (grid : Grid) (r c : nat) (v : Z) : Grid :=
  match grid !! r with
  | Some rw => <[r := <[c := v]> rw]> grid
  | None => grid
  end.

(** [xs[i]] on a mask array. *)
Definition at_ (xs : list Z) (i : nat) : Z :=
  match xs !! i with Some v => v | None => 0 end.

Definition ALL_MASK : Z := Z.shiftl 1 9 - 1.

(** [1 << (d - 1)]; Python raises [ValueError] on a negative shift count,
    which callers that can pass [d <= 0] check through [bit_checked]. *)
Definition bit (d : Z) : Z := Z.shiftl 1 (d - 1).

(** The shift as [build_masks] runs it on a cell value.  A shift count too
    large for the memory of the machine makes CPython raise [MemoryError]
    or, beyond [sys.maxsize], [OverflowError]; from which count on depends
    on the machine, and the model has no such outcome.  It agrees with the
    code on the counts every machine handles; the theorems that admit cell
    values above 9 bound them by [shift_safe]. *)
Definition bit_checked (d : Z) : result Z :=
  if d - 1 <? 0 then Raise ValueError else Ok (bit d).

Definition box_index (r c : nat) : nat := (r / 3) * 3 + (c / 3).

Record Masks : Type := mkMasks {
  row : list Z;
  col : list Z;
  box : list Z
}.

(** The cells in the order of [for r in range(9): for c in range(9)]. *)
Definition all_cells : list (nat * nat) :=
  r ← seq 0 9; c ← seq 0 9; [(r, c)].

Definition build_step (grid : Grid) (acc : result Masks) (rc : nat * nat)
  : result Masks :=
  ms ← acc;
  let v := cell grid rc.1 rc.2 in
  if v =? 0 then Ok ms
  else
    m ← bit_checked v;
    let b := box_index rc.1 rc.2 in
    Ok {| row := <[rc.1 := Z.lor (at_ (row ms) rc.1) m]> (row ms);
          col := <[rc.2 := Z.lor (at_ (col ms) rc.2) m]> (col ms);
          box := <[b := Z.lor (at_ (box ms) b) m]> (box ms) |}.

Definition build_masks (grid : Grid) : result Masks :=
  fold_left (build_step grid) all_cells
    (Ok {| row := replicate 9 0; col := replicate 9 0; box := replicate 9 0 |}).

Definition candidates_mask (ms : Masks) (r c : nat) : Z :=
  let used := Z.lor (Z.lor (at_ (row ms) r) (at_ (col ms) c))
                    (at_ (box ms) (box_index r c)) in
  Z.land ALL_MASK (Z.lnot used).

(** [[d for d in range(1, 10) if mask & bit(d)]], before any shuffle. *)
Definition digits_from_mask (mask : Z) : list Z :=
  filter (fun d => Z.land mask (bit d) ≠ 0) (map Z.of_nat (seq 1 9)).

(** [int.bit_count]: the number of ones in the absolute value. *)
Fixpoint pop_count (p : positive) : nat :=
  match p with
  | xH => 1
  | xO q => pop_count q
  | xI q => S (pop_count q)
  end.

Definition bit_count (m : Z) : Z :=
  match m with
  | Z0 => 0
  | Zpos p | Zneg p => Z.of_nat (pop_count p)
  end.

(** The double loop of [find_mrv_cell] over the cells still to visit, with
    its two early returns. *)
Fixpoint mrv_scan (grid : Grid) (ms : Masks) (cells : list (nat * nat))
    (best : option (nat * nat * Z)) (best_cnt : Z) : option (nat * nat * Z) :=
  match cells with
  | [] => best
  | (r, c) :: rest =>
      if cell grid r c =? 0 then
        let m := candidates_mask ms r c in
        let cnt := bit_count m in
        if cnt =? 0 then Some (r, c, 0)
        else if cnt <? best_cnt then
          if cnt =? 1 then Some (r, c, m)
          else mrv_scan grid ms rest (Some (r, c, m)) cnt
        else mrv_scan grid ms rest best best_cnt
      else mrv_scan grid ms rest best best_cnt
  end.

Definition find_mrv_cell (grid : Grid) (ms : Masks) : option (nat * nat * Z) :=
  mrv_scan grid ms all_cells None 10.

(** The grid together with the three mask arrays the closures share. *)
Record State : Type := mkState {
  grid_of : Grid;
  masks_of : Masks
}.

(** [grid[r][c] = d; row[r] |= md; col[c] |= md; box[b] |= md]. *)
Definition place (st : State) (r c : nat) (d : Z) : State :=
  let md := bit d in
  let b := box_index r c in
  let ms := masks_of st in
  {| grid_of := grid_set (grid_of st) r c d;
     masks_of :=
       {| row := <[r := Z.lor (at_ (row ms) r) md]> (row ms);
          col := <[c := Z.lor (at_ (col ms) c) md]> (col ms);
          box := <[b := Z.lor (at_ (box ms) b) md]> (box ms) |} |}.

(** [box[b] &= ~md; col[c] &= ~md; row[r] &= ~md; grid[r][c] = 0]. *)
Definition unplace (st : State) (r c : nat) (d : Z) : State :=
  let md := bit d in
  let b := box_index r c in
  let ms := masks_of st in
  {| grid_of := grid_set (grid_of st) r c 0;
     masks_of :=
       {| row := <[r := Z.land (at_ (row ms) r) (Z.lnot md)]> (row ms);
          col := <[c := Z.land (at_ (col ms) c) (Z.lnot md)]> (col ms);
          box := <[b := Z.land (at_ (box ms) b) (Z.lnot md)]> (box ms) |} |}.

(** *** [count_solutions] *)

(** The [for d in digits_from_mask(m)] loop of the counting closure; [rec]
    is the recursive call. *)
Fixpoint count_loop (rec : State -> result (State * Z)) (limit : Z)
    (r c : nat) (ds : list Z) (st : State) (total : Z) : result (State * Z) :=
  match ds with
  | [] => Ok (st, total)
  | d :: ds' =>
      '(st1, k) ← rec (place st r c d);
      let total' := total + k in
      let st2 := unplace st1 r c d in
      if total' >=? limit then Ok (st2, total')
      else count_loop rec limit r c ds' st2 total'
  end.

Fixpoint count_backtrack (fuel : nat) (limit : Z) (st : State)
  : result (State * Z) :=
  match fuel with
  | O => OutOfFuel
  | S fuel' =>
      match find_mrv_cell (grid_of st) (masks_of st) with
      | None => Ok (st, 1)
      | Some (r, c, m) =>
          if m =? 0 then Ok (st, 0)
          else count_loop (count_backtrack fuel' limit) limit r c
                 (digits_from_mask m) st 0
      end
  end.

(** The recursion is at most one level per cell deep, plus the call that
    finds the board full. *)
Definition max_depth : nat := 82.

(** Returns the final contents of [grid] and the count. *)
Definition count_solutions (grid : Grid) (limit : Z) : result (Grid * Z) :=
  ms ← build_masks grid;
  '(st, n) ← count_backtrack max_depth limit (mkState grid ms);
  Ok (grid_of st, n).


(** ** The random source

    [random.Random] is library code.  Its state is a value of type [RNG];
    [World] stands for the entropy of the operating system, which the
    constructor reads when it is given no seed.  [shuffle] rearranges a
    list and [randrange] draws a number, both advancing the state; nothing
    else is assumed about them. *)

Class RandomSource (RNG World : Type) : Type := {
  Random : option Z -> World -> RNG * World;
  shuffle : forall {A : Type}, RNG -> list A -> list A * RNG;
  randrange : RNG -> Z -> Z * RNG;
  shuffle_perm : forall (A : Type) (rng : RNG) (xs : list A),
    (shuffle rng xs).1 ≡ₚ xs;
  Random_seeded : forall (seed : Z) (w w' : World),
    (Random (Some seed) w).1 = (Random (Some seed) w').1
}.

Section Generator.

Context {RNG World : Type} {RS : RandomSource RNG World}.

(** [digits_from_mask(mask, rng)] with a random source: the same digits,
    shuffled. *)
Definition digits_from_mask_rng (mask : Z) (rng : RNG) : list Z * RNG :=
  shuffle rng (digits_from_mask mask).

(** *** [solve_one] *)

Fixpoint solve_loop (rec : State -> RNG -> result (State * RNG * bool))
    (r c : nat) (ds : list Z) (st : State) (rng : RNG)
  : result (State * RNG * bool) :=
  match ds with
  | [] => Ok (st, rng, false)
  | d :: ds' =>
      '(st1, rng1, found) ← rec (place st r c d) rng;
      if found : bool then Ok (st1, rng1, true)
      else solve_loop rec r c ds' (unplace st1 r c d) rng1
  end.

Fixpoint solve_backtrack (fuel : nat) (st : State) (rng : RNG)
  : result (State * RNG * bool) :=
  match fuel with
  | O => OutOfFuel
  | S fuel' =>
      match find_mrv_cell (grid_of st) (masks_of st) with
      | None => Ok (st, rng, true)
      | Some (r, c, m) =>
          if m =? 0 then Ok (st, rng, false)
          else
            let '(ds, rng1) := digits_from_mask_rng m rng in
            solve_loop (solve_backtrack fuel') r c ds st rng1
      end
  end.

(** Returns the final contents of [grid], the final state of [rng] and the
    boolean. *)
Definition solve_one (grid : Grid) (rng : RNG) : result (Grid * RNG * bool) :=
  ms ← build_masks grid;
  '(st, rng', found) ← solve_backtrack max_depth (mkState grid ms) rng;
  Ok (grid_of st, rng', found).

Definition generate_full_grid (seed : option Z) (w : World)
  : result (Grid * World) :=
  let '(rng, w') := Random seed w in
  let grid := replicate 9 (replicate 9 0) in
  '(grid', _, found) ← solve_one grid rng;
  if found : bool then Ok (grid', w') else Raise RuntimeError.

(** *** [remove_cells_unique] *)

Definition paired (symmetry : bool) (r c : nat) : list (nat * nat) :=
  if negb symmetry then [(r, c)]
  else
    let r2 := (8 - r)%nat in
    let c2 := (8 - c)%nat in
    if decide ((r, c) = (r2, c2)) then [(r, c)] else [(r, c); (r2, c2)].

(** [for rr, cc, v in backup: puzzle[rr][cc] = v] *)
Definition write_back (puzzle : Grid) (backup : list (nat * nat * Z)) : Grid :=
  fold_left (fun p t => grid_set p t.1.1 t.1.2 t.2) backup puzzle.

(** [for rr, cc, _ in backup: puzzle[rr][cc] = 0] *)
Definition clear_cells (puzzle : Grid) (backup : list (nat * nat * Z)) : Grid :=
  fold_left (fun p t => grid_set p t.1.1 t.1.2 0) backup puzzle.

(** One pass of the [for r, c in cells] loop.  [tmp] is a deep copy, so
    what [count_solutions] leaves in it is dropped. *)
Definition dig_step (symmetry : bool) (puzzle : Grid) (rc : nat * nat)
  : result Grid :=
  let targets := paired symmetry rc.1 rc.2 in
  if forallb (fun t => cell puzzle t.1 t.2 =? 0) targets then Ok puzzle
  else
    let backup := map (fun t => (t.1, t.2, cell puzzle t.1 t.2)) targets in
    let puzzle1 := clear_cells puzzle backup in
    '(_, n) ← count_solutions puzzle1 2;
    if negb (n =? 1) then Ok (write_back puzzle1 backup) else Ok puzzle1.

Definition dig_loop (symmetry : bool) (cells : list (nat * nat))
    (puzzle : Grid) : result Grid :=
  fold_left (fun acc rc => p ← acc; dig_step symmetry p rc) cells (Ok puzzle).

Definition remove_cells_unique (full : Grid) (rng : RNG) (symmetry : bool)
  : result (Grid * RNG) :=
  let puzzle := full in
  let '(cells, rng') := shuffle rng all_cells in
  puzzle' ← dig_loop symmetry cells puzzle;
  Ok (puzzle', rng').

(** *** [generate_puzzle] *)

Definition count_zeros (puzzle : Grid) : Z :=
  Z.of_nat (length (filter (fun rc => cell puzzle rc.1 rc.2 = 0) all_cells)).

(** The variables the [for _ in range(attempts)] loop carries. *)
Record Best : Type := mkBest {
  best_puzzle : option Grid;
  best_solution : option Grid;
  best_zeros : Z
}.

Definition attempt (symmetry : bool) (acc : Best * RNG * World)
  : result (Best * RNG * World) :=
  let '(best, rng, w) := acc in
  let '(k, rng1) := randrange rng (10 ^ 9) in
  '(solution, w1) ← generate_full_grid (Some k) w;
  '(puzzle, rng2) ← remove_cells_unique solution rng1 symmetry;
  let zeros := count_zeros puzzle in
  if zeros >? best_zeros best
  then Ok (mkBest (Some puzzle) (Some solution) zeros, rng2, w1)
  else Ok (best, rng2, w1).

Fixpoint attempts_loop (n : nat) (symmetry : bool) (acc : Best * RNG * World)
  : result (Best * RNG * World) :=
  match n with
  | O => Ok acc
  | S n' => acc' ← attempt symmetry acc; attempts_loop n' symmetry acc'
  end.

Definition generate_puzzle (attempts : Z) (symmetry : bool) (seed : option Z)
    (w : World) : result (Grid * Grid * World) :=
  let '(rng, w0) := Random seed w in
  '(best, _, w1) ← attempts_loop (Z.to_nat attempts) symmetry
                     (mkBest None None (-1), rng, w0);
  match best_puzzle best, best_solution best with
  | Some p, Some s => Ok (p, s, w1)
  | _, _ => Raise AssertionError
  end.

End Generator.

(** A concrete random source for running the model: the state is a counter,
    [shuffle] reverses its list on odd counts and [randrange] returns the
    counter reduced into the range.  The entropy of the system is a number
    that an unseeded constructor takes as its state and advances. *)
#[global, refine] Instance counter_source : RandomSource nat nat := {|
  Random := fun seed w =>
    match seed with
    | Some s => (Z.to_nat s, w)
    | None => (w, S w)
    end;
  shuffle := fun A rng xs => (if Nat.odd rng then reverse xs else xs, S rng);
  randrange := fun rng n => (Z.of_nat rng mod n, S rng)
|}.
Proof.
  - intros A rng xs. simpl. destruct (Nat.odd rng); [apply reverse_Permutation | done].
  - done.
Defined.

Definition empty_grid : Grid := replicate 9 (replicate 9 0).

(** ** Text output and the statistics of the main block *)

(** [str(v) if v else "."] *)
Definition cell_text (v : Z) : string :=
  if v =? 0 then "." else pretty v.

(** The list [row] that [print_grid_ascii] builds for row [r]. *)
Definition row_tokens (grid : Grid) (r : nat) : list string :=
  c ← seq 0 9;
  (if (c mod 3 =? 0)%nat && negb (c =? 0)%nat then ["|"%string] else []) ++
  [cell_text (cell grid r c)].

(** The lines [print_grid_ascii] prints, in order. *)
Definition print_grid_ascii (grid : Grid) : list string :=
  r ← seq 0 9;
  (if (r mod 3 =? 0)%nat && negb (r =? 0)%nat
   then [String.concat "" (replicate 21 "-"%string)] else []) ++
  [String.concat " " (row_tokens grid r)].




(** ** Specification vocabulary *)

(** Nine rows of nine cells. *)
Definition shape9 (g : Grid) : Prop :=
  length g = 9%nat ∧ Forall (fun rw => length rw = 9%nat) g.

(** Every cell holds 0 (empty) or a digit. *)
Definition in_range (g : Grid) : Prop :=
  Forall (fun rc => 0 ≤ cell g rc.1 rc.2 ≤ 9) all_cells.

(** Two cells that share a row, a column or a box. *)
Definition same_unit (p q : nat * nat) : Prop :=
  p.1 = q.1 ∨ p.2 = q.2 ∨ box_index p.1 p.2 = box_index q.1 q.2.

(** No digit occurs twice in a row, a column or a box. *)
Definition no_duplicates (g : Grid) : Prop :=
  Forall (fun p => Forall (fun q =>
    p ≠ q → same_unit p q → cell g p.1 p.2 ≠ 0 →
    cell g p.1 p.2 ≠ cell g q.1 q.2) all_cells) all_cells.

Definition well_formed (g : Grid) : Prop :=
  shape9 g ∧ in_range g ∧ no_duplicates g.

(** The 27 units: nine rows, nine columns, nine boxes. *)
Definition units : list (list (nat * nat)) :=
  map (fun r => map (fun c => (r, c)) (seq 0 9)) (seq 0 9) ++
  map (fun c => map (fun r => (r, c)) (seq 0 9)) (seq 0 9) ++
  map (fun b => filter (fun rc => box_index rc.1 rc.2 = b) all_cells) (seq 0 9).

Definition digits : list Z := map Z.of_nat (seq 1 9).

Definition unit_values (g : Grid) (u : list (nat * nat)) : list Z :=
  map (fun rc => cell g rc.1 rc.2) u.

Definition occurrences (d : Z) (vals : list Z) : nat :=
  length (filter (fun v => v = d) vals).

(** Every row, column and box contains each digit 1..9 exactly once. *)
Definition each_digit_once (g : Grid) : Prop :=
  Forall (fun u => Forall (fun d => occurrences d (unit_values g u) = 1%nat)
                     digits) units.

(** A complete, valid board. *)
Definition solved (g : Grid) : Prop := shape9 g ∧ each_digit_once g.

(** [s] keeps every non-empty cell of [g]. *)
Definition agrees (g s : Grid) : Prop :=
  Forall (fun rc => cell g rc.1 rc.2 ≠ 0 → cell s rc.1 rc.2 = cell g rc.1 rc.2)
    all_cells.

(** [s] is a completion (a solution) of [g]. *)
Definition solves (g s : Grid) : Prop := solved s ∧ agrees g s.

(** [sols] lists the solutions of [g], each once; its length is the number
    of solutions. *)
Definition solutions (g : Grid) (sols : list Grid) : Prop :=
  NoDup sols ∧ ∀ s, s ∈ sols ↔ solves g s.

Definition count_empty (g : Grid) : nat :=
  length (filter (fun rc => cell g rc.1 rc.2 = 0) all_cells).

#[global] Instance shape9_dec g : Decision (shape9 g).
Proof. unfold shape9. apply _. Defined.
#[global] Instance in_range_dec g : Decision (in_range g).
Proof. unfold in_range. apply _. Defined.
#[global] Instance same_unit_dec p q : Decision (same_unit p q).
Proof. unfold same_unit. apply _. Defined.
#[global] Instance no_duplicates_dec g : Decision (no_duplicates g).
Proof. unfold no_duplicates. apply _. Defined.
#[global] Instance well_formed_dec g : Decision (well_formed g).
Proof. unfold well_formed. apply _. Defined.
#[global] Instance each_digit_once_dec g : Decision (each_digit_once g).
Proof. unfold each_digit_once, occurrences. apply _. Defined.
#[global] Instance solved_dec g : Decision (solved g).
Proof. unfold solved. apply _. Defined.
#[global] Instance agrees_dec g s : Decision (agrees g s).
Proof. unfold agrees. apply _. Defined.
#[global] Instance solves_dec g s : Decision (solves g s).
Proof. unfold solves. apply _. Defined.

(** ** Vocabulary of the proofs *)

(** [xs] has, for every unit [k] of the family selected by [sel], bit [i]
    set exactly when digit [i + 1] stands in a cell of [cells] that lies in
    unit [k]. *)
Definition mask_rel (sel : nat * nat → nat) (cells : list (nat * nat))
    (g : Grid) (xs : list Z) : Prop :=
  length xs = 9%nat ∧
  ∀ k i, (k < 9)%nat →
    Z.testbit (at_ xs k) i = true ↔
    0 ≤ i ∧ ∃ rc, rc ∈ cells ∧ sel rc = k ∧ cell g rc.1 rc.2 = i + 1.

Definition box_of (rc : nat * nat) : nat := box_index rc.1 rc.2.

Definition masks_rel (cells : list (nat * nat)) (g : Grid) (ms : Masks) : Prop :=
  mask_rel fst cells g (row ms) ∧
  mask_rel snd cells g (col ms) ∧
  mask_rel box_of cells g (box ms).

Definition masks_ok (g : Grid) (ms : Masks) : Prop := masks_rel all_cells g ms.

(** A bound on cell values below which [1 << (v - 1)] is an integer of at
    most 8 KiB, computed without trouble on every machine. *)
Definition shift_safe : Z := 65536.

(** No cell holds a number above [shift_safe]. *)
Definition modest (g : Grid) : Prop :=
  Forall (fun rc => cell g rc.1 rc.2 ≤ shift_safe) all_cells.

(** No cell holds a negative number. *)
Definition nonneg (g : Grid) : Prop :=
  Forall (fun rc => 0 ≤ cell g rc.1 rc.2) all_cells.

(** Digit [d] may be written at [(r, c)]: no cell of the row, the column or
    the box of [(r, c)] holds it. *)
Definition legal (g : Grid) (r c : nat) (d : Z) : Prop :=
  1 ≤ d ≤ 9 ∧
  Forall (fun q => same_unit (r, c) q → cell g q.1 q.2 ≠ d) all_cells.

#[global] Instance legal_dec g r c d : Decision (legal g r c d).
Proof. unfold legal. apply _. Defined.

(** A board on which every cell is filled. *)
Definition complete (g : Grid) : Prop :=
  Forall (fun rc => cell g rc.1 rc.2 ≠ 0) all_cells.

(** What every call of the two closures finds: a well-formed grid and masks
    that describe it. *)
Definition inv (st : State) : Prop :=
  well_formed (grid_of st) ∧ masks_ok (grid_of st) (masks_of st).

(** [sols] lists, each once, the grids that satisfy [P]. *)
Definition enumerates (P : Grid → Prop) (sols : list Grid) : Prop :=
  NoDup sols ∧ ∀ s, s ∈ sols ↔ P s.

(** What the return value says about the number [n] of solutions. *)
Definition count_spec (limit : Z) (n : nat) (k : Z) : Prop :=
  0 ≤ k ≤ Z.of_nat n ∧ (k = Z.of_nat n ∨ limit ≤ k).

(** What [solve_one] and its closure promise: on [true] the grid has become
    a completion of the grid of the call, on [false] nothing has changed
    and there is no completion. *)
Definition solve_spec (st st' : State) (found : bool) : Prop :=
  if found then solves (grid_of st) (grid_of st')
  else st' = st ∧ ∀ s, ¬ solves (grid_of st) s.

(** A grid obtained from a solved board by emptying cells. *)
Definition dug_from (full p : Grid) : Prop :=
  shape9 p ∧
  ∀ r c, (r < 9)%nat → (c < 9)%nat →
    cell p r c = 0 ∨ cell p r c = cell full r c.

(** The cell opposite under a half turn of the board. *)
Definition mirror (rc : nat * nat) : nat * nat := ((8 - rc.1)%nat, (8 - rc.2)%nat).

(** [[(rr, cc, puzzle[rr][cc]) for rr, cc in targets]] *)
Definition backup_of (p : Grid) (targets : list (nat * nat))
  : list (nat * nat * Z) :=
  map (fun t => (t.1, t.2, cell p t.1 t.2)) targets.

(** What holds of the puzzle between two passes of the digging loop. *)
Definition dig_inv (symmetry : bool) (full p : Grid) : Prop :=
  dug_from full p ∧
  count_solutions p 2 = Ok (p, 1) ∧
  (symmetry = true →
   ∀ q, q ∈ all_cells → cell p q.1 q.2 = 0 →
        cell p (mirror q).1 (mirror q).2 = 0).

(** The same without the rules on the digits: enough for the searches to
    come back with grid and masks as they found them. *)
Definition inv0 (st : State) : Prop :=
  shape9 (grid_of st) ∧ masks_ok (grid_of st) (masks_of st).

(** A solved board, used to show that the empty grid has a completion. *)
Definition sample_solution : Grid :=
  [ [5;3;4;6;7;8;9;1;2];
    [6;7;2;1;9;5;3;4;8];
    [1;9;8;3;4;2;5;6;7];
    [8;5;9;7;6;1;4;2;3];
    [4;2;6;8;5;3;7;9;1];
    [7;1;3;9;2;4;8;5;6];
    [9;6;1;5;3;7;2;8;4];
    [2;8;7;4;1;9;6;3;5];
    [3;4;5;2;8;6;1;7;9] ].

(** The outcome of a call without the entropy it leaves behind. *)
Definition returned {A W : Type} (x : result (A * W)) : result A :=
  '(a, _) ← x; Ok a.

(** The loop state without the entropy. *)
Definition forget {RNG World : Type} (x : result (Best * RNG * World)) : result (Best * RNG) :=
  '(best, rng, _) ← x; Ok (best, rng).

(** The best attempt so far is a puzzle dug from its solution. *)
Definition best_ok (symmetry : bool) (best : Best) : Prop :=
  ∃ p s, best_puzzle best = Some p ∧ best_solution best = Some s ∧
         solved s ∧ dig_inv symmetry s p.

(** ** Boards used as concrete inputs *)

(** [sample_solution] with seven cells emptied; it has three completions. *)
Definition three_solutions : Grid :=
  [ [5;3;4;6;7;8;9;1;2];
    [6;7;2;1;9;5;3;0;0];
    [1;9;8;3;4;2;5;6;7];
    [8;5;9;7;6;1;0;0;3];
    [4;2;6;8;5;3;7;9;1];
    [7;1;3;9;2;4;8;5;6];
    [9;6;1;5;3;7;0;0;0];
    [2;8;7;4;1;9;6;3;5];
    [3;4;5;2;8;6;1;7;9] ].

(** A full board that breaks every rule: the digit 1 in all 81 cells. *)
Definition all_ones : Grid := replicate 9 (replicate 9 1).

(** [sample_solution] with the number 10 in its first cell. *)
Definition with_ten : Grid := grid_set sample_solution 0 0 10.

(** [sample_solution] with -1 in its first cell. *)
Definition with_negative : Grid := grid_set sample_solution 0 0 (-1).

(** A grid the spec calls malformed: a value outside 0..9 or a digit
    repeated in a row, a column or a box. *)
Definition malformed (g : Grid) : Prop := ¬ in_range g ∨ ¬ no_duplicates g.

(** The call ended in an exception. *)
Definition rejected {A : Type} (x : result A) : Prop := ∃ e, x = Raise e.

(** Closes a decidable closed statement by evaluating its decision
    procedure. *)
Ltac by_evaluation := apply (bool_decide_unpack _); vm_compute; exact I.

(** The second completion of [three_solutions]; the first is
    [sample_solution]. *)
Definition second_solution : Grid :=
  [ [5;3;4;6;7;8;9;1;2];
    [6;7;2;1;9;5;3;8;4];
    [1;9;8;3;4;2;5;6;7];
    [8;5;9;7;6;1;2;4;3];
    [4;2;6;8;5;3;7;9;1];
    [7;1;3;9;2;4;8;5;6];
    [9;6;1;5;3;7;4;2;8];
    [2;8;7;4;1;9;6;3;5];
    [3;4;5;2;8;6;1;7;9] ].

(** ** Vocabulary of the further properties *)

(** The number of candidates the masks leave for a cell. *)
Definition candidate_count (ms : Masks) (q : nat * nat) : Z :=
  bit_count (candidates_mask ms q.1 q.2).

(** The masks [build_masks] returns for [three_solutions]. *)
Definition three_solutions_masks : Masks :=
  Eval vm_compute in
    match build_masks three_solutions with
    | Ok ms => ms
    | _ => mkMasks [] [] []
    end.

(** The puzzle with the cells of [targets] emptied. *)
Definition without (p : Grid) (targets : list (nat * nat)) : Grid :=
  clear_cells p (backup_of p targets).

(** Every target is empty already. *)
Definition all_empty (p : Grid) (targets : list (nat * nat)) : Prop :=
  Forall (fun t => cell p t.1 t.2 = 0) targets.

(** Emptying the targets of [rc] is no longer possible: they are empty, or
    the puzzle without them has a solution other than [full]. *)
Definition blocked (symmetry : bool) (full p : Grid) (rc : nat * nat) : Prop :=
  all_empty p (paired symmetry rc.1 rc.2) ∨
  ∃ s, s ≠ full ∧ solves (without p (paired symmetry rc.1 rc.2)) s.

(** Row [r] as a unit. *)
Definition row_unit (r : nat) : list (nat * nat) := map (fun c => (r, c)) (seq 0 9).

(** Column [c] as a unit. *)
Definition col_unit (c : nat) : list (nat * nat) := map (fun r => (r, c)) (seq 0 9).

(** The best attempt so far, with all the digger guarantees. *)
Definition best_min (symmetry : bool) (best : Best) : Prop :=
  ∃ p s, best_puzzle best = Some p ∧ best_solution best = Some s ∧
         solved s ∧ dig_inv symmetry s p ∧
         Forall (blocked symmetry s p) all_cells.

(** What a call of the closure of [solve_one] leaves behind on any 9x9 grid
    without negative numbers. *)
Definition solve_frame (st st' : State) (found : bool) : Prop :=
  if found then complete (grid_of st') ∧ shape9 (grid_of st') ∧
                agrees (grid_of st) (grid_of st')
  else st' = st.

(** The character that stands for a cell value 0..9. *)
Definition cell_char (v : Z) : ascii :=
  if v =? 0 then "."%char else ascii_of_nat (48 + Z.to_nat v).

(** The value a printed character stands for. *)
Definition char_value (ch : ascii) : Z :=
  if decide (ch = "."%char) then 0 else Z.of_nat (nat_of_ascii ch) - 48.

(** The cell [(r, c)] read back from the printed lines. *)
Definition text_cell (lines : list string) (r c : nat) : Z :=
  match lines !! (r + r / 3)%nat with
  | Some line =>
      match String.get (2 * (c + c / 3)) line with
      | Some ch => char_value ch
      | None => 0
      end
  | None => 0
  end.

(** ** Cells and grids *)

Lemma elem_of_all_cells r c :
  (r, c) ∈ all_cells ↔ (r < 9)%nat ∧ (c < 9)%nat.
Proof.
  unfold all_cells. rewrite list_elem_of_bind. split.
  - intros (r' & Hin & Hr). apply list_elem_of_bind in Hin as (c' & Hin & Hc).
    apply list_elem_of_singleton in Hin. inversion Hin; subst.
    apply elem_of_seq in Hr, Hc. lia.
  - intros [Hr Hc]. exists r. split; [|apply elem_of_seq; lia].
    apply list_elem_of_bind. exists c. split; [|apply elem_of_seq; lia].
    by apply list_elem_of_singleton.
Qed.

Lemma Forall_all_cells (P : nat * nat → Prop) :
  Forall P all_cells ↔ ∀ r c, (r < 9)%nat → (c < 9)%nat → P (r, c).
Proof.
  rewrite Forall_forall. split.
  - intros HP r c Hr Hc. apply HP. by apply elem_of_all_cells.
  - intros HP [r c] Hin. apply elem_of_all_cells in Hin as [Hr Hc]. by apply HP.
Qed.

Lemma NoDup_all_cells : NoDup all_cells.
Proof. compute_done. Qed.

Lemma in_range_cell g r c :
  in_range g → (r < 9)%nat → (c < 9)%nat → 0 ≤ cell g r c ≤ 9.
Proof. intros Hg Hr Hc. by apply (proj1 (Forall_all_cells _) Hg r c). Qed.

Lemma no_duplicates_cell g r1 c1 r2 c2 :
  no_duplicates g →
  (r1 < 9)%nat → (c1 < 9)%nat → (r2 < 9)%nat → (c2 < 9)%nat →
  (r1, c1) ≠ (r2, c2) → same_unit (r1, c1) (r2, c2) →
  cell g r1 c1 ≠ 0 → cell g r1 c1 ≠ cell g r2 c2.
Proof.
  intros Hg Hr1 Hc1 Hr2 Hc2.
  pose proof (proj1 (Forall_all_cells _) Hg r1 c1 Hr1 Hc1) as Hp.
  by apply (proj1 (Forall_all_cells _) Hp r2 c2).
Qed.

Lemma agrees_cell g s r c :
  agrees g s → (r < 9)%nat → (c < 9)%nat →
  cell g r c ≠ 0 → cell s r c = cell g r c.
Proof. intros Hg Hr Hc. by apply (proj1 (Forall_all_cells _) Hg r c). Qed.

Lemma legal_cells g r c d :
  legal g r c d ↔
  1 ≤ d ≤ 9 ∧
  ∀ r' c', (r' < 9)%nat → (c' < 9)%nat →
    same_unit (r, c) (r', c') → cell g r' c' ≠ d.
Proof. unfold legal. by rewrite Forall_all_cells. Qed.

Lemma shape9_row g r :
  shape9 g → (r < 9)%nat → ∃ rw, g !! r = Some rw ∧ length rw = 9%nat.
Proof.
  intros [Hlen Hrows] Hr.
  destruct (lookup_lt_is_Some_2 g r) as [rw Hrw]; [lia|].
  exists rw. split; [done|].
  by apply (proj1 (Forall_forall _ _) Hrows), list_elem_of_lookup_2 with r.
Qed.

Lemma shape9_grid_set g r c v : shape9 g → shape9 (grid_set g r c v).
Proof.
  intros [Hlen Hrows]. unfold grid_set.
  destruct (g !! r) as [rw|] eqn:Hrw; [|done].
  split; [by rewrite length_insert|].
  apply Forall_insert; [done|]. rewrite length_insert.
  by apply (proj1 (Forall_forall _ _) Hrows), list_elem_of_lookup_2 with r.
Qed.

Lemma cell_grid_set g r c v r' c' :
  shape9 g → (r < 9)%nat → (c < 9)%nat →
  cell (grid_set g r c v) r' c' =
    if decide ((r, c) = (r', c')) then v else cell g r' c'.
Proof.
  intros Hg Hr Hc.
  destruct (shape9_row g r Hg Hr) as (rw & Hrw & Hlen).
  destruct Hg as [Hglen _].
  unfold grid_set, cell. rewrite Hrw.
  destruct (decide (r = r')) as [<-|Hne].
  - rewrite list_lookup_insert_eq by lia.
    destruct (decide (c = c')) as [<-|Hnc].
    + rewrite list_lookup_insert_eq by lia. by rewrite decide_True.
    + rewrite list_lookup_insert_ne by done. rewrite Hrw.
      rewrite decide_False by congruence. done.
  - rewrite list_lookup_insert_ne by done.
    rewrite decide_False by congruence. done.
Qed.

Lemma cell_grid_set_eq g r c v :
  shape9 g → (r < 9)%nat → (c < 9)%nat → cell (grid_set g r c v) r c = v.
Proof. intros. rewrite cell_grid_set by done. by rewrite decide_True. Qed.

Lemma cell_grid_set_ne g r c v r' c' :
  shape9 g → (r < 9)%nat → (c < 9)%nat → (r, c) ≠ (r', c') →
  cell (grid_set g r c v) r' c' = cell g r' c'.
Proof. intros. rewrite cell_grid_set by done. by rewrite decide_False. Qed.

(** Two 9x9 grids with the same 81 cells are the same grid. *)
Lemma grid_ext g g' :
  shape9 g → shape9 g' →
  (∀ r c, (r < 9)%nat → (c < 9)%nat → cell g r c = cell g' r c) → g = g'.
Proof.
  intros Hg Hg' Hcells. apply list_eq. intros r.
  destruct (decide (r < 9)%nat) as [Hr|Hr].
  - destruct (shape9_row g r Hg Hr) as (rw & Hrw & Hlen).
    destruct (shape9_row g' r Hg' Hr) as (rw' & Hrw' & Hlen').
    rewrite Hrw, Hrw'. f_equal. apply list_eq. intros c.
    destruct (decide (c < 9)%nat) as [Hc|Hc].
    + specialize (Hcells r c Hr Hc). unfold cell in Hcells.
      rewrite Hrw, Hrw' in Hcells.
      destruct (lookup_lt_is_Some_2 rw c) as [v Hv]; [lia|].
      destruct (lookup_lt_is_Some_2 rw' c) as [v' Hv']; [lia|].
      rewrite Hv, Hv' in Hcells |- *. by subst.
    + rewrite !lookup_ge_None_2 by lia. done.
  - destruct Hg as [Hl _], Hg' as [Hl' _].
    rewrite !lookup_ge_None_2 by lia. done.
Qed.

Lemma grid_set_same g r c :
  shape9 g → (r < 9)%nat → (c < 9)%nat → grid_set g r c (cell g r c) = g.
Proof.
  intros Hg Hr Hc. apply grid_ext; [by apply shape9_grid_set|done|].
  intros r' c' _ _. rewrite cell_grid_set by done.
  case_decide as Heq; [by inversion Heq|done].
Qed.

Lemma grid_set_set g r c v v' :
  shape9 g → (r < 9)%nat → (c < 9)%nat →
  grid_set (grid_set g r c v) r c v' = grid_set g r c v'.
Proof.
  intros Hg Hr Hc. apply grid_ext; [by do 2 apply shape9_grid_set|by apply shape9_grid_set|].
  intros r' c' _ _. rewrite !cell_grid_set by (done || by apply shape9_grid_set).
  by case_decide.
Qed.

Lemma at_insert (xs : list Z) (i j : nat) (v : Z) :
  (i < length xs)%nat →
  at_ (<[i := v]> xs) j = if decide (i = j) then v else at_ xs j.
Proof.
  intros Hi. unfold at_. case_decide as Hij.
  - subst. by rewrite list_lookup_insert_eq.
  - by rewrite list_lookup_insert_ne.
Qed.

Lemma insert_at_same (xs : list Z) (i : nat) :
  <[i := at_ xs i]> xs = xs.
Proof.
  unfold at_. destruct (xs !! i) as [v|] eqn:Hv.
  - by apply list_insert_id.
  - apply list_insert_ge. by apply lookup_ge_None.
Qed.

Lemma testbit_bit d i : 1 ≤ d → Z.testbit (bit d) i = bool_decide (i = d - 1).
Proof.
  intros Hd. unfold bit. rewrite Z.shiftl_1_l.
  rewrite Z.pow2_bits_eqb by lia.
  case_bool_decide; [apply Z.eqb_eq; lia | apply Z.eqb_neq; lia].
Qed.

Lemma bit_pos d : 1 ≤ d → 0 < bit d.
Proof. intros. unfold bit. rewrite Z.shiftl_1_l. apply Z.pow_pos_nonneg; lia. Qed.

Lemma land_bit_nonzero m d :
  1 ≤ d → Z.land m (bit d) ≠ 0 ↔ Z.testbit m (d - 1) = true.
Proof.
  intros Hd. split.
  - intros Hne. destruct (Z.testbit m (d - 1)) eqn:Hb; [done|].
    exfalso. apply Hne. apply Z.bits_inj'. intros i Hi.
    rewrite Z.land_spec, testbit_bit, Z.bits_0 by done.
    case_bool_decide; subst; [by rewrite Hb | by rewrite andb_false_r].
  - intros Hb Heq.
    assert (Z.testbit (Z.land m (bit d)) (d - 1) = true) as Ht.
    { rewrite Z.land_spec, Hb, testbit_bit by done. by rewrite bool_decide_eq_true_2. }
    rewrite Heq, Z.bits_0 in Ht. done.
Qed.

(** Clearing a bit that was set by the matching [|=] gives the old mask
    back when the bit was clear before. *)
Lemma land_lor_bit x d :
  1 ≤ d → Z.testbit x (d - 1) = false →
  Z.land (Z.lor x (bit d)) (Z.lnot (bit d)) = x.
Proof.
  intros Hd Hb. apply Z.bits_inj'. intros i Hi.
  rewrite Z.land_spec, Z.lor_spec, Z.lnot_spec, testbit_bit by done.
  case_bool_decide; subst; simpl.
  - by rewrite Hb, andb_false_r.
  - by rewrite orb_false_r, andb_true_r.
Qed.

Lemma pop_count_pos p : (0 < pop_count p)%nat.
Proof. induction p; simpl; lia. Qed.

Lemma bit_count_zero m : bit_count m = 0 → m = 0.
Proof.
  destruct m as [|p|p]; simpl; [done| |];
    pose proof (pop_count_pos p); lia.
Qed.

Lemma land_ALL_MASK x : Z.land ALL_MASK x = x mod 512.
Proof.
  rewrite Z.land_comm. change ALL_MASK with (Z.ones 9).
  by rewrite Z.land_ones.
Qed.

Lemma bit_count_masked x : bit_count (Z.land ALL_MASK x) < 10.
Proof.
  rewrite land_ALL_MASK.
  pose proof (Z.mod_pos_bound x 512 ltac:(lia)) as Hr.
  assert (Forall (fun m => bit_count m < 10) (map Z.of_nat (seq 0 512))) as Hall
    by compute_done.
  rewrite Forall_forall in Hall. apply Hall.
  apply list_elem_of_fmap. exists (Z.to_nat (x mod 512)).
  split; [lia|]. apply elem_of_seq. lia.
Qed.

Lemma testbit_ALL_MASK i : Z.testbit ALL_MASK i = bool_decide (0 ≤ i < 9).
Proof.
  change ALL_MASK with (Z.ones 9).
  case_bool_decide as Hi.
  - apply Z.ones_spec_low. lia.
  - destruct (decide (i < 0)); [by apply Z.testbit_neg_r|].
    apply Z.ones_spec_high. lia.
Qed.

Lemma box_index_lt r c : (r < 9)%nat → (c < 9)%nat → (box_index r c < 9)%nat.
Proof.
  intros Hr Hc. unfold box_index.
  pose proof (Nat.Div0.div_lt_upper_bound r 3 3 ltac:(lia)).
  pose proof (Nat.Div0.div_lt_upper_bound c 3 3 ltac:(lia)). lia.
Qed.

(** ** The masks as a description of the grid *)

Lemma mask_rel_nil sel g : mask_rel sel [] g (replicate 9 0).
Proof.
  split; [done|]. intros k i Hk. split.
  - do 9 (destruct k as [|k]; [by rewrite Z.bits_0|]). lia.
  - intros (_ & rc & Hin & _). by apply elem_of_nil in Hin.
Qed.

Lemma mask_rel_skip sel done g xs rc :
  mask_rel sel done g xs → cell g rc.1 rc.2 = 0 →
  mask_rel sel (done ++ [rc]) g xs.
Proof.
  intros [Hlen Hbits] Hzero. split; [done|]. intros k i Hk.
  rewrite Hbits by done. split.
  - intros (Hi & q & Hin & Hsel & Hq). split; [done|].
    exists q. rewrite elem_of_app. auto.
  - intros (Hi & q & Hin & Hsel & Hq). split; [done|].
    apply elem_of_app in Hin as [Hin|Hin]; [by exists q|].
    apply list_elem_of_singleton in Hin. subst q. lia.
Qed.

Lemma mask_rel_add sel done g xs rc :
  mask_rel sel done g xs → (sel rc < 9)%nat → 1 ≤ cell g rc.1 rc.2 →
  mask_rel sel (done ++ [rc]) g
    (<[sel rc := Z.lor (at_ xs (sel rc)) (bit (cell g rc.1 rc.2))]> xs).
Proof.
  intros [Hlen Hbits] Hsel Hv. split; [by rewrite length_insert|].
  intros k i Hk. rewrite at_insert by lia.
  case_decide as Hsk.
  - subst k. rewrite Z.lor_spec, orb_true_iff, Hbits, testbit_bit by done.
    rewrite bool_decide_eq_true. split.
    + intros [(Hi & q & Hin & Hq & Hc)|Hi].
      * split; [done|]. exists q. rewrite elem_of_app. auto.
      * split; [lia|]. exists rc. rewrite elem_of_app, list_elem_of_singleton.
        split; [auto|]. split; [done|lia].
    + intros (Hi & q & Hin & Hq & Hc).
      apply elem_of_app in Hin as [Hin|Hin]; [left; split; [done|]; by exists q|].
      apply list_elem_of_singleton in Hin. subst q. right. lia.
  - rewrite Hbits by done. split.
    + intros (Hi & q & Hin & Hq & Hc). split; [done|].
      exists q. rewrite elem_of_app. auto.
    + intros (Hi & q & Hin & Hq & Hc). split; [done|].
      apply elem_of_app in Hin as [Hin|Hin]; [by exists q|].
      apply list_elem_of_singleton in Hin. subst q. done.
Qed.

Lemma build_step_zero g ms rc :
  cell g rc.1 rc.2 = 0 → build_step g (Ok ms) rc = Ok ms.
Proof. intros Hz. unfold build_step. simpl. by rewrite Hz. Qed.

Lemma build_step_pos g ms rc :
  1 ≤ cell g rc.1 rc.2 →
  build_step g (Ok ms) rc =
    Ok {| row := <[rc.1 := Z.lor (at_ (row ms) rc.1) (bit (cell g rc.1 rc.2))]> (row ms);
          col := <[rc.2 := Z.lor (at_ (col ms) rc.2) (bit (cell g rc.1 rc.2))]> (col ms);
          box := <[box_of rc := Z.lor (at_ (box ms) (box_of rc)) (bit (cell g rc.1 rc.2))]> (box ms) |}.
Proof.
  intros Hv. unfold build_step, bit_checked. simpl.
  destruct (Z.eqb_spec (cell g rc.1 rc.2) 0) as [Hz|_]; [lia|].
  destruct (Z.ltb_spec (cell g rc.1 rc.2 - 1) 0) as [Hz|_]; [lia|]. done.
Qed.

Lemma build_step_neg g ms rc :
  cell g rc.1 rc.2 < 0 → build_step g (Ok ms) rc = Raise ValueError.
Proof.
  intros Hv. unfold build_step, bit_checked. simpl.
  destruct (Z.eqb_spec (cell g rc.1 rc.2) 0) as [Hz|_]; [lia|].
  destruct (Z.ltb_spec (cell g rc.1 rc.2 - 1) 0) as [_|Hz]; [done|lia].
Qed.

Lemma build_fold_raise g cells e :
  fold_left (build_step g) cells (Raise e) = Raise e.
Proof. induction cells as [|rc cells IH]; [done|]. simpl. apply IH. Qed.

Lemma build_fold_ok g cells done ms :
  Forall (fun rc => (rc.1 < 9)%nat ∧ (rc.2 < 9)%nat ∧ 0 ≤ cell g rc.1 rc.2) cells →
  masks_rel done g ms →
  ∃ ms', fold_left (build_step g) cells (Ok ms) = Ok ms' ∧
         masks_rel (done ++ cells) g ms'.
Proof.
  intros Hcells. revert done ms.
  induction Hcells as [|rc cells (Hr & Hc & Hv) _ IH]; intros done ms Hms.
  - exists ms. by rewrite app_nil_r.
  - cbn [fold_left]. replace (done ++ rc :: cells) with ((done ++ [rc]) ++ cells)
      by (by rewrite <- app_assoc).
    destruct Hms as (Hrow & Hcol & Hbox).
    destruct (decide (cell g rc.1 rc.2 = 0)) as [Hz|Hnz].
    + rewrite build_step_zero by done. apply IH.
      split; [|split]; by apply mask_rel_skip.
    + rewrite build_step_pos by lia. apply IH.
      split; [|split]; simpl.
      * apply (mask_rel_add fst); [done|done|lia].
      * apply (mask_rel_add snd); [done|done|lia].
      * apply (mask_rel_add box_of); [done|by apply box_index_lt|lia].
Qed.

Lemma build_fold_neg g cells ms :
  Exists (fun rc => cell g rc.1 rc.2 < 0) cells →
  fold_left (build_step g) cells (Ok ms) = Raise ValueError.
Proof.
  revert ms. induction cells as [|rc cells IH]; intros ms Hex.
  - by apply Exists_nil in Hex.
  - cbn [fold_left]. destruct (Z.lt_trichotomy (cell g rc.1 rc.2) 0) as [Hn|[Hz|Hp]].
    + rewrite build_step_neg by done. apply build_fold_raise.
    + rewrite build_step_zero by done. apply IH.
      apply Exists_cons in Hex as [Hex|Hex]; [lia|done].
    + rewrite build_step_pos by lia. apply IH.
      apply Exists_cons in Hex as [Hex|Hex]; [lia|done].
Qed.

Lemma build_masks_ok g :
  nonneg g → ∃ ms, build_masks g = Ok ms ∧ masks_ok g ms.
Proof.
  intros Hg. unfold build_masks, masks_ok.
  apply (build_fold_ok g all_cells []).
  - apply Forall_forall. intros [r c] Hin.
    pose proof (proj1 (elem_of_all_cells r c) Hin) as [Hr Hc].
    split; [done|]. split; [done|].
    by apply (proj1 (Forall_forall _ _) Hg (r, c)).
  - split; [|split]; apply mask_rel_nil.
Qed.

Lemma build_masks_neg g :
  Exists (fun rc => cell g rc.1 rc.2 < 0) all_cells →
  build_masks g = Raise ValueError.
Proof. apply build_fold_neg. Qed.

(** ** Candidates *)

Lemma elem_of_digits d : d ∈ map Z.of_nat (seq 1 9) ↔ 1 ≤ d ≤ 9.
Proof.
  split.
  - intros Hin. apply list_elem_of_fmap in Hin as (n & -> & Hn).
    apply elem_of_seq in Hn. lia.
  - intros Hd. apply list_elem_of_fmap. exists (Z.to_nat d).
    split; [lia|]. apply elem_of_seq. lia.
Qed.

Lemma NoDup_digits_from_mask m : NoDup (digits_from_mask m).
Proof. unfold digits_from_mask. apply NoDup_filter. compute_done. Qed.

Lemma digit_candidate ms r c d :
  d ∈ digits_from_mask (candidates_mask ms r c) ↔
  1 ≤ d ≤ 9 ∧
  Z.testbit (at_ (row ms) r) (d - 1) = false ∧
  Z.testbit (at_ (col ms) c) (d - 1) = false ∧
  Z.testbit (at_ (box ms) (box_index r c)) (d - 1) = false.
Proof.
  unfold digits_from_mask, candidates_mask.
  rewrite list_elem_of_filter, elem_of_digits. split.
  - intros [Hne Hd]. split; [done|].
    apply land_bit_nonzero in Hne; [|lia].
    rewrite Z.land_spec, Z.lnot_spec, !Z.lor_spec in Hne by lia.
    apply andb_true_iff in Hne as [_ Hne]. apply negb_true_iff in Hne.
    apply orb_false_iff in Hne as [Hne ?]. by apply orb_false_iff in Hne as [? ?].
  - intros (Hd & Hr & Hc & Hb). split; [|done].
    apply land_bit_nonzero; [lia|].
    rewrite Z.land_spec, Z.lnot_spec, !Z.lor_spec, Hr, Hc, Hb, testbit_ALL_MASK by lia.
    rewrite bool_decide_eq_true_2 by lia. done.
Qed.

Lemma mask_rel_clear sel g xs k d :
  mask_rel sel all_cells g xs → (k < 9)%nat → 1 ≤ d →
  Z.testbit (at_ xs k) (d - 1) = false ↔
  ∀ r' c', (r' < 9)%nat → (c' < 9)%nat → sel (r', c') = k → cell g r' c' ≠ d.
Proof.
  intros [_ Hbits] Hk Hd. rewrite <- not_true_iff_false, Hbits by done. split.
  - intros Hno r' c' Hr' Hc' Hsel Hcell. apply Hno. split; [lia|].
    exists (r', c'). rewrite elem_of_all_cells. simpl. split; [done|]. split; [done|lia].
  - intros Hno (_ & [r' c'] & Hin & Hsel & Hcell).
    apply elem_of_all_cells in Hin as [Hr' Hc'].
    apply (Hno r' c'); [done..|]. simpl in Hcell. lia.
Qed.

Lemma candidates_legal g ms r c d :
  masks_ok g ms → (r < 9)%nat → (c < 9)%nat →
  d ∈ digits_from_mask (candidates_mask ms r c) ↔ legal g r c d.
Proof.
  intros (Hrow & Hcol & Hbox) Hr Hc. rewrite digit_candidate, legal_cells.
  pose proof (box_index_lt r c Hr Hc) as Hb.
  split.
  - intros (Hd & Hbr & Hbc & Hbb). split; [done|].
    rewrite (mask_rel_clear fst g) in Hbr by (done || lia).
    rewrite (mask_rel_clear snd g) in Hbc by (done || lia).
    rewrite (mask_rel_clear box_of g) in Hbb by (done || lia).
    intros r' c' Hr' Hc' [Hu|[Hu|Hu]]; simpl in Hu.
    + by apply Hbr.
    + by apply Hbc.
    + by apply Hbb.
  - intros (Hd & Hno). split; [done|].
    rewrite (mask_rel_clear fst g), (mask_rel_clear snd g),
      (mask_rel_clear box_of g) by (done || lia).
    split; [|split]; intros r' c' Hr' Hc' Hsel; apply Hno; try done.
    + by left.
    + right; by left.
    + right; by right.
Qed.

(** ** Placing and taking back a digit *)

Lemma mask_rel_place sel g xs r c d :
  shape9 g → (r < 9)%nat → (c < 9)%nat → (sel (r, c) < 9)%nat →
  cell g r c = 0 → 1 ≤ d →
  mask_rel sel all_cells g xs →
  mask_rel sel all_cells (grid_set g r c d)
    (<[sel (r, c) := Z.lor (at_ xs (sel (r, c))) (bit d)]> xs).
Proof.
  intros Hg Hr Hc Hsel Hzero Hd [Hlen Hbits].
  split; [by rewrite length_insert|]. intros k i Hk.
  rewrite at_insert by lia.
  assert (∀ q, q ∈ all_cells → cell (grid_set g r c d) q.1 q.2 = i + 1 →
               q ≠ (r, c) → cell g q.1 q.2 = i + 1) as Hold.
  { intros [r' c'] _ Hq Hne. simpl in *.
    rewrite cell_grid_set_ne in Hq; done. }
  assert (∀ q, 0 ≤ i → q ∈ all_cells → cell g q.1 q.2 = i + 1 →
               cell (grid_set g r c d) q.1 q.2 = i + 1) as Hnew.
  { intros [r' c'] Hi _ Hq. simpl in *.
    rewrite cell_grid_set_ne; [done..|]. intros [= <- <-]. lia. }
  assert (cell (grid_set g r c d) r c = d) as Hrc by by apply cell_grid_set_eq.
  case_decide as Hsk.
  - subst k. rewrite Z.lor_spec, orb_true_iff, Hbits, testbit_bit by done.
    rewrite bool_decide_eq_true. split.
    + intros [(Hi & q & Hin & Hq & Hcq)|Hi].
      * split; [done|]. exists q. auto.
      * split; [lia|]. exists (r, c). rewrite elem_of_all_cells. simpl.
        split; [done|]. split; [done|]. lia.
    + intros (Hi & q & Hin & Hq & Hcq).
      destruct (decide (q = (r, c))) as [->|Hne].
      * right. simpl in Hcq. lia.
      * left. split; [done|]. exists q. auto.
  - rewrite Hbits by done. split.
    + intros (Hi & q & Hin & Hq & Hcq). split; [done|]. exists q. auto.
    + intros (Hi & q & Hin & Hq & Hcq). split; [done|].
      exists q. split; [done|]. split; [done|].
      apply Hold; [done..|]. intros ->. done.
Qed.

Lemma masks_ok_place g ms r c d :
  shape9 g → (r < 9)%nat → (c < 9)%nat → cell g r c = 0 → 1 ≤ d →
  masks_ok g ms →
  masks_ok (grid_set g r c d) (masks_of (place (mkState g ms) r c d)).
Proof.
  intros Hg Hr Hc Hzero Hd (Hrow & Hcol & Hbox).
  split; [|split]; simpl.
  - by apply (mask_rel_place fst).
  - by apply (mask_rel_place snd).
  - apply (mask_rel_place box_of); try done. by apply box_index_lt.
Qed.

Lemma unset_set_mask xs k d :
  1 ≤ d → Z.testbit (at_ xs k) (d - 1) = false →
  <[k := Z.land (at_ (<[k := Z.lor (at_ xs k) (bit d)]> xs) k) (Z.lnot (bit d))]>
    (<[k := Z.lor (at_ xs k) (bit d)]> xs) = xs.
Proof.
  intros Hd Hb. rewrite list_insert_insert_eq.
  destruct (decide (k < length xs)%nat) as [Hk|Hk].
  - rewrite at_insert, decide_True, land_lor_bit by done. apply insert_at_same.
  - by rewrite list_insert_ge by lia.
Qed.

Lemma unplace_place st r c d :
  shape9 (grid_of st) → (r < 9)%nat → (c < 9)%nat →
  cell (grid_of st) r c = 0 →
  d ∈ digits_from_mask (candidates_mask (masks_of st) r c) →
  unplace (place st r c d) r c d = st.
Proof.
  intros Hg Hr Hc Hzero Hd. apply digit_candidate in Hd as (Hd & Hbr & Hbc & Hbb).
  destruct st as [g [row col box]]. unfold unplace, place. simpl in *.
  f_equal.
  - rewrite grid_set_set by done. rewrite <- Hzero. by apply grid_set_same.
  - f_equal; apply unset_set_mask; (done || lia).
Qed.

(** ** The cell selector *)

Lemma mrv_scan_full g ms cells best cnt :
  Forall (fun rc => cell g rc.1 rc.2 ≠ 0) cells →
  mrv_scan g ms cells best cnt = best.
Proof.
  induction 1 as [|[r c] cells Hne _ IH]; [done|]. simpl in *.
  destruct (Z.eqb_spec (cell g r c) 0); [done|]. apply IH.
Qed.

Lemma mrv_scan_none g ms cells best cnt :
  (best = None → 10 ≤ cnt) →
  mrv_scan g ms cells best cnt = None →
  best = None ∧ Forall (fun rc => cell g rc.1 rc.2 ≠ 0) cells.
Proof.
  revert best cnt. induction cells as [|[r c] cells IH]; intros best cnt Hcnt Hscan.
  - simpl in Hscan. by subst.
  - simpl in Hscan.
    destruct (Z.eqb_spec (cell g r c) 0) as [Hz|Hnz].
    + exfalso. unfold candidates_mask in Hscan.
      set (used := Z.lor _ _) in Hscan.
      pose proof (bit_count_masked (Z.lnot used)) as Hlt.
      destruct (Z.eqb_spec (bit_count (Z.land ALL_MASK (Z.lnot used))) 0); [done|].
      destruct (Z.ltb_spec (bit_count (Z.land ALL_MASK (Z.lnot used))) cnt) as [Hlt'|Hge].
      * destruct (Z.eqb_spec (bit_count (Z.land ALL_MASK (Z.lnot used))) 1); [done|].
        apply IH in Hscan as [? _]; done.
      * apply IH in Hscan as [-> _]; [|done]. specialize (Hcnt eq_refl). lia.
    + apply IH in Hscan as [-> Hrest]; [|done].
      split; [done|]. by apply Forall_cons.
Qed.

Lemma mrv_scan_some g ms cells best cnt r c m :
  mrv_scan g ms cells best cnt = Some (r, c, m) →
  best = Some (r, c, m) ∨
  ((r, c) ∈ cells ∧ cell g r c = 0 ∧ m = candidates_mask ms r c).
Proof.
  revert best cnt. induction cells as [|[r' c'] cells IH]; intros best cnt Hscan.
  - by left.
  - simpl in Hscan.
    destruct (Z.eqb_spec (cell g r' c') 0) as [Hz|Hnz].
    + destruct (Z.eqb_spec (bit_count (candidates_mask ms r' c')) 0) as [Hc0|Hc0].
      { inversion Hscan; subst. right. rewrite elem_of_cons.
        apply bit_count_zero in Hc0. auto. }
      destruct (Z.ltb_spec (bit_count (candidates_mask ms r' c')) cnt) as [Hlt|Hge].
      * destruct (Z.eqb_spec (bit_count (candidates_mask ms r' c')) 1) as [Hc1|Hc1].
        { inversion Hscan; subst. right. rewrite elem_of_cons. auto. }
        apply IH in Hscan as [Hb|(Hin & ? & ?)].
        -- inversion Hb; subst. right. rewrite elem_of_cons. auto.
        -- right. rewrite elem_of_cons. auto.
      * apply IH in Hscan as [Hb|(Hin & ? & ?)]; [by left|].
        right. rewrite elem_of_cons. auto.
    + apply IH in Hscan as [Hb|(Hin & ? & ?)]; [by left|].
      right. rewrite elem_of_cons. auto.
Qed.

Lemma find_mrv_cell_complete g ms : complete g → find_mrv_cell g ms = None.
Proof. apply mrv_scan_full. Qed.

Lemma find_mrv_cell_none g ms : find_mrv_cell g ms = None → complete g.
Proof. intros Hf. by apply mrv_scan_none in Hf as [_ ?]. Qed.

Lemma find_mrv_cell_some g ms r c m :
  find_mrv_cell g ms = Some (r, c, m) →
  (r < 9)%nat ∧ (c < 9)%nat ∧ cell g r c = 0 ∧ m = candidates_mask ms r c.
Proof.
  intros Hf. apply mrv_scan_some in Hf as [?|(Hin & ? & ?)]; [done|].
  apply elem_of_all_cells in Hin as [? ?]. auto.
Qed.

(** ** Solved boards *)

Lemma units_wf :
  Forall (fun u => length u = 9%nat ∧ NoDup u ∧
                   Forall (fun p => p ∈ all_cells ∧
                                    Forall (fun q => same_unit p q) u) u) units.
Proof. compute_done. Qed.

Lemma units_cover :
  Forall (fun p => Forall (fun q =>
    same_unit p q → Exists (fun u => p ∈ u ∧ q ∈ u) units) all_cells) all_cells.
Proof. compute_done. Qed.

Lemma NoDup_digits : NoDup digits.
Proof. compute_done. Qed.

Lemma occurrences_digits : Forall (fun d => occurrences d digits = 1%nat) digits.
Proof. compute_done. Qed.

Lemma occurrences_elem_of d vals : occurrences d vals = 1%nat → d ∈ vals.
Proof.
  unfold occurrences. intros Hocc.
  destruct (filter (λ v, v = d) vals) as [|v l] eqn:Hf; [done|].
  assert (v ∈ filter (λ v, v = d) vals) as Hin by (rewrite Hf; left).
  apply list_elem_of_filter in Hin as [-> ?]. done.
Qed.

Lemma once_Permutation vals :
  length vals = 9%nat →
  Forall (fun d => occurrences d vals = 1%nat) digits → vals ≡ₚ digits.
Proof.
  intros Hlen Hocc. symmetry. apply submseteq_length_Permutation.
  - apply NoDup_submseteq; [apply NoDup_digits|].
    intros d Hd. apply occurrences_elem_of.
    by apply (proj1 (Forall_forall _ _) Hocc).
  - by rewrite Hlen.
Qed.

Lemma Permutation_once vals :
  vals ≡ₚ digits → Forall (fun d => occurrences d vals = 1%nat) digits.
Proof.
  intros Hp. apply Forall_forall. intros d Hd. unfold occurrences.
  rewrite Hp. by apply (proj1 (Forall_forall _ _) occurrences_digits).
Qed.

Lemma NoDup_map_inj {A B} (f : A → B) (l : list A) x y :
  NoDup (map f l) → x ∈ l → y ∈ l → f x = f y → x = y.
Proof.
  induction l as [|a l IH]; intros Hnd Hx Hy Hf; [by apply elem_of_nil in Hx|].
  simpl in Hnd. apply NoDup_cons in Hnd as [Hnotin Hnd].
  apply elem_of_cons in Hx as [->|Hx], Hy as [->|Hy]; try done.
  - exfalso. apply Hnotin. rewrite Hf. by apply (list_elem_of_fmap_2 f).
  - exfalso. apply Hnotin. rewrite <- Hf. by apply (list_elem_of_fmap_2 f).
  - by apply IH.
Qed.

Lemma unit_Permutation s u :
  solved s → u ∈ units → unit_values s u ≡ₚ digits.
Proof.
  intros [_ Honce] Hu. apply once_Permutation.
  - unfold unit_values. rewrite length_map.
    by apply (proj1 (Forall_forall _ _) units_wf u).
  - by apply (proj1 (Forall_forall _ _) Honce).
Qed.

Lemma shared_unit p q :
  p ∈ all_cells → q ∈ all_cells → same_unit p q →
  ∃ u, u ∈ units ∧ p ∈ u ∧ q ∈ u.
Proof.
  intros Hp Hq Hpq.
  pose proof (proj1 (Forall_forall _ _) units_cover p Hp) as Hc.
  pose proof (proj1 (Forall_forall _ _) Hc q Hq Hpq) as Hex.
  apply Exists_exists in Hex as (u & Hu & ? & ?). eauto.
Qed.

Lemma solved_digit s r c :
  solved s → (r < 9)%nat → (c < 9)%nat → 1 ≤ cell s r c ≤ 9.
Proof.
  intros Hs Hr Hc.
  assert ((r, c) ∈ all_cells) as Hin by by apply elem_of_all_cells.
  destruct (shared_unit (r, c) (r, c)) as (u & Hu & Hpu & _); [done|done|by left|].
  apply elem_of_digits. change (map Z.of_nat (seq 1 9)) with digits.
  rewrite <- (unit_Permutation s u Hs Hu).
  by apply (list_elem_of_fmap_2 (fun rc => cell s rc.1 rc.2) u (r, c)).
Qed.

Lemma solved_no_duplicates s : solved s → no_duplicates s.
Proof.
  intros Hs. apply Forall_forall. intros p Hp. apply Forall_forall.
  intros q Hq Hne Hsame _ Heq.
  destruct (shared_unit p q) as (u & Hu & Hpu & Hqu); [done..|].
  apply Hne. apply (NoDup_map_inj (fun rc => cell s rc.1 rc.2) u); [|done..].
  change (NoDup (unit_values s u)). rewrite (unit_Permutation s u Hs Hu).
  apply NoDup_digits.
Qed.

Lemma solved_complete s : solved s → complete s.
Proof.
  intros Hs. apply Forall_all_cells. intros r c Hr Hc. simpl.
  pose proof (solved_digit s r c Hs Hr Hc). lia.
Qed.

Lemma complete_solved s :
  shape9 s → in_range s → no_duplicates s → complete s → solved s.
Proof.
  intros Hshape Hrange Hnd Hfull. split; [done|].
  apply Forall_forall. intros u Hu. apply Permutation_once.
  pose proof (proj1 (Forall_forall _ _) units_wf u Hu) as (Hlen & Hndu & Hcells).
  rewrite Forall_forall in Hcells.
  apply submseteq_length_Permutation.
  - apply NoDup_submseteq.
    + apply NoDup_fmap_2_strong; [|done].
      intros p q Hp Hq Heq. destruct (decide (p = q)) as [|Hne]; [done|].
      destruct (Hcells p Hp) as [Hpin Hsame]. destruct (Hcells q Hq) as [Hqin _].
      exfalso.
      pose proof (proj1 (Forall_forall _ _) Hnd p Hpin) as Hnp.
      apply (proj1 (Forall_forall _ _) Hnp q Hqin Hne); [|by apply (proj1 (Forall_forall _ _) Hfull)|done].
      by apply (proj1 (Forall_forall _ _) Hsame).
    + intros v Hv. apply list_elem_of_fmap in Hv as (p & -> & Hp).
      destruct (Hcells p Hp) as [Hpin _]. apply elem_of_digits.
      pose proof (proj1 (Forall_forall _ _) Hrange p Hpin).
      pose proof (proj1 (Forall_forall _ _) Hfull p Hpin). simpl in *. lia.
  - unfold unit_values. rewrite length_map, Hlen. done.
Qed.

(** ** Completions of a board with an empty cell *)

Lemma same_unit_sym p q : same_unit p q → same_unit q p.
Proof. unfold same_unit. intros [?|[?|?]]; auto. Qed.

Lemma solves_branch g s r c :
  shape9 g → (r < 9)%nat → (c < 9)%nat → cell g r c = 0 → solves g s →
  legal g r c (cell s r c) ∧ solves (grid_set g r c (cell s r c)) s.
Proof.
  intros Hg Hr Hc Hzero [Hs Hag].
  pose proof (solved_digit s r c Hs Hr Hc) as Hd.
  split; [apply legal_cells; split; [done|]|split; [done|]].
  - intros r' c' Hr' Hc' Hsame Heq.
    assert ((r, c) ≠ (r', c')) as Hne by (intros [= <- <-]; lia).
    apply (no_duplicates_cell s r c r' c'); try done.
    + by apply solved_no_duplicates.
    + lia.
    + rewrite <- Heq. symmetry. apply agrees_cell; [done..|lia].
  - apply Forall_all_cells. intros r' c' Hr' Hc'. simpl.
    rewrite cell_grid_set by done. case_decide as Heq.
    + by inversion Heq.
    + by apply agrees_cell.
Qed.

Lemma solves_child g s r c d :
  shape9 g → (r < 9)%nat → (c < 9)%nat → cell g r c = 0 → d ≠ 0 →
  solves (grid_set g r c d) s → solves g s ∧ cell s r c = d.
Proof.
  intros Hg Hr Hc Hzero Hd [Hs Hag]. split; [split; [done|]|].
  - apply Forall_all_cells. intros r' c' Hr' Hc'. simpl. intros Hne.
    pose proof (agrees_cell _ _ r' c' Hag Hr' Hc') as Hcell.
    rewrite cell_grid_set in Hcell by done.
    case_decide as Heq; [inversion Heq; subst; done|by apply Hcell].
  - pose proof (agrees_cell _ _ r c Hag Hr Hc) as Hcell.
    rewrite cell_grid_set_eq in Hcell by done. by apply Hcell.
Qed.

Lemma agrees_refl g : agrees g g.
Proof. by apply Forall_forall. Qed.

Lemma solves_complete g s :
  well_formed g → complete g → solves g s ↔ s = g.
Proof.
  intros (Hshape & Hrange & Hnd) Hfull. split.
  - intros [[Hs _] Hag]. apply grid_ext; [done..|].
    intros r c Hr Hc. apply agrees_cell; [done..|].
    by apply (proj1 (Forall_all_cells _) Hfull r c).
  - intros ->. split; [by apply complete_solved|apply agrees_refl].
Qed.

Lemma well_formed_place g r c d :
  well_formed g → (r < 9)%nat → (c < 9)%nat → cell g r c = 0 →
  legal g r c d → well_formed (grid_set g r c d).
Proof.
  intros (Hshape & Hrange & Hnd) Hr Hc Hzero [Hd Hlegal]%legal_cells.
  split; [by apply shape9_grid_set|]. split.
  - apply Forall_all_cells. intros r' c' Hr' Hc'. simpl.
    rewrite cell_grid_set by done. case_decide; [lia|by apply in_range_cell].
  - apply Forall_all_cells. intros r1 c1 Hr1 Hc1.
    apply Forall_all_cells. intros r2 c2 Hr2 Hc2. simpl.
    intros Hne Hsame. rewrite !cell_grid_set by done.
    destruct (decide ((r, c) = (r1, c1))) as [Heq1|Hne1];
      destruct (decide ((r, c) = (r2, c2))) as [Heq2|Hne2].
    + congruence.
    + inversion Heq1; subst. intros _ Heq. by apply (Hlegal r2 c2).
    + inversion Heq2; subst. intros _ Heq.
      apply (Hlegal r1 c1); [done..|by apply same_unit_sym|done].
    + by apply no_duplicates_cell.
Qed.

(** ** The number of empty cells *)

Lemma filter_length_agree {A} (P Q : A → Prop)
    `{∀ x, Decision (P x)} `{∀ x, Decision (Q x)} (l : list A) :
  (∀ x, x ∈ l → P x ↔ Q x) → length (filter P l) = length (filter Q l).
Proof.
  induction l as [|a l IH]; intros Hiff; [done|].
  rewrite !filter_cons.
  pose proof (Hiff a ltac:(left)) as Ha.
  assert (length (filter P l) = length (filter Q l)) as IH'.
  { apply IH. intros x Hx. apply Hiff. by right. }
  destruct (decide (P a)), (decide (Q a)); simpl; tauto || lia.
Qed.

(** Changing the status of exactly one element changes the count by one. *)
Lemma filter_length_flip {A} `{EqDecision A} (P Q : A → Prop)
    `{∀ x, Decision (P x)} `{∀ x, Decision (Q x)} (l : list A) (p : A) :
  NoDup l → p ∈ l → P p → ¬ Q p → (∀ x, x ≠ p → P x ↔ Q x) →
  (length (filter Q l) + 1 = length (filter P l))%nat.
Proof.
  intros Hnd Hin HP HQ Hiff.
  induction l as [|a l IH]; [by apply elem_of_nil in Hin|].
  apply NoDup_cons in Hnd as [Hnotin Hnd].
  destruct (decide (a = p)) as [->|Hne].
  - rewrite (filter_cons_True P), (filter_cons_False Q) by done. simpl.
    rewrite (filter_length_agree P Q l); [lia|].
    intros x Hx. apply Hiff. by intros ->.
  - apply elem_of_cons in Hin as [?|Hin]; [congruence|].
    specialize (IH Hnd Hin). rewrite !filter_cons.
    pose proof (Hiff a Hne).
    destruct (decide (P a)), (decide (Q a)); simpl; tauto || lia.
Qed.

Lemma count_empty_place g r c d :
  shape9 g → (r < 9)%nat → (c < 9)%nat → cell g r c = 0 → d ≠ 0 →
  (count_empty (grid_set g r c d) + 1 = count_empty g)%nat.
Proof.
  intros Hg Hr Hc Hzero Hd. unfold count_empty.
  apply (filter_length_flip _ _ all_cells (r, c)).
  - apply NoDup_all_cells.
  - by apply elem_of_all_cells.
  - done.
  - simpl. by rewrite cell_grid_set_eq.
  - intros [r' c'] Hne. simpl. by rewrite cell_grid_set_ne.
Qed.

Lemma count_empty_le g : (count_empty g ≤ 81)%nat.
Proof.
  unfold count_empty. etrans; [apply length_filter|]. done.
Qed.

(** ** The search invariant *)

Lemma inv_place st r c d :
  inv st → (r < 9)%nat → (c < 9)%nat → cell (grid_of st) r c = 0 →
  d ∈ digits_from_mask (candidates_mask (masks_of st) r c) →
  inv (place st r c d).
Proof.
  intros [Hwf Hms] Hr Hc Hzero Hd.
  pose proof (proj1 (candidates_legal _ _ r c d Hms Hr Hc) Hd) as Hlegal.
  destruct st as [g ms]. split; simpl in *.
  - by apply well_formed_place.
  - apply (masks_ok_place g ms r c d); try done; [apply Hwf|apply Hlegal].
Qed.

Lemma enumerates_iff (P Q : Grid → Prop) sols :
  (∀ s, P s ↔ Q s) → enumerates P sols → enumerates Q sols.
Proof. intros Hiff [Hnd Hin]. split; [done|]. intros s. by rewrite Hin. Qed.

Lemma enumerates_app (P Q : Grid → Prop) l1 l2 :
  enumerates P l1 → enumerates Q l2 → (∀ s, P s → Q s → False) →
  enumerates (fun s => P s ∨ Q s) (l1 ++ l2).
Proof.
  intros [Hnd1 Hin1] [Hnd2 Hin2] Hdisj. split.
  - apply NoDup_app. split; [done|]. split; [|done].
    intros s Hs1 Hs2. apply (Hdisj s); [by apply Hin1|by apply Hin2].
  - intros s. by rewrite elem_of_app, Hin1, Hin2.
Qed.

Lemma solutions_enumerates g sols :
  solutions g sols ↔ enumerates (solves g) sols.
Proof. done. Qed.

(** The completions of [g] that put [d] into the empty cell [(r, c)] are
    the completions of the grid with [d] written there. *)
Lemma solves_place g r c d s :
  shape9 g → (r < 9)%nat → (c < 9)%nat → cell g r c = 0 → d ≠ 0 →
  solves (grid_set g r c d) s ↔ solves g s ∧ cell s r c = d.
Proof.
  intros Hg Hr Hc Hzero Hd. split; [by apply solves_child|].
  intros [Hs <-]. by apply solves_branch.
Qed.

Lemma enumerates_cons g r c d ds sols rest :
  shape9 g → (r < 9)%nat → (c < 9)%nat → cell g r c = 0 → d ≠ 0 → d ∉ ds →
  solutions (grid_set g r c d) sols →
  enumerates (fun s => solves g s ∧ cell s r c ∈ ds) rest →
  enumerates (fun s => solves g s ∧ cell s r c ∈ d :: ds) (sols ++ rest).
Proof.
  intros Hg Hr Hc Hzero Hd Hnotin Hsols Hrest.
  eapply enumerates_iff; [|apply enumerates_app; [apply Hsols|apply Hrest|]].
  - intros s. simpl. rewrite solves_place, elem_of_cons by done. split.
    + intros [[Hs Heq]|[Hs Hin]]; auto.
    + intros [Hs [Heq|Hin]]; auto.
  - intros s Hs1 [_ Hs2]. simpl in Hs1.
    apply solves_place in Hs1 as [_ Heq]; [|done..]. by subst.
Qed.

Section CountLoop.

Variables (rec : State → result (State * Z)) (limit : Z).
Variables (st : State) (r c : nat).
Hypothesis Hinv : inv st.
Hypotheses (Hr : (r < 9)%nat) (Hc : (c < 9)%nat).
Hypothesis Hzero : cell (grid_of st) r c = 0.
Hypothesis Hrec :
  ∀ d, d ∈ digits_from_mask (candidates_mask (masks_of st) r c) →
    ∃ sols k, rec (place st r c d) = Ok (place st r c d, k) ∧
              solutions (grid_set (grid_of st) r c d) sols ∧
              count_spec limit (length sols) k.

Lemma count_loop_correct ds total :
  NoDup ds →
  (∀ d, d ∈ ds → d ∈ digits_from_mask (candidates_mask (masks_of st) r c)) →
  0 ≤ total →
  ∃ sols total',
    count_loop rec limit r c ds st total = Ok (st, total') ∧
    enumerates (fun s => solves (grid_of st) s ∧ cell s r c ∈ ds) sols ∧
    total ≤ total' ≤ total + Z.of_nat (length sols) ∧
    (total' = total + Z.of_nat (length sols) ∨ limit ≤ total').
Proof.
  pose proof Hinv as [(Hshape & _) _].
  revert total. induction ds as [|d ds IH]; intros total Hnd Hds Htotal.
  - exists [], total. split; [done|]. split; [|simpl; lia].
    split; [constructor|]. intros s. split; [by intros ?%elem_of_nil|].
    by intros [_ ?%elem_of_nil].
  - apply NoDup_cons in Hnd as [Hnotin Hnd].
    assert (d ∈ digits_from_mask (candidates_mask (masks_of st) r c)) as Hd
      by (apply Hds; by left).
    destruct (Hrec d Hd) as (sols & k & Hcall & Hsols & [Hk Hk']).
    pose proof (proj1 (digit_candidate _ _ _ _) Hd) as [Hd19 _].
    cbn [count_loop]. rewrite Hcall. simpl.
    rewrite unplace_place by done.
    destruct (IH (total + k)) as (rest & total' & Hloop & Hrest & Hle & Hfin);
      [done|intros; apply Hds; by right|lia|].
    assert (enumerates (fun s => solves (grid_of st) s ∧ cell s r c ∈ d :: ds)
              (sols ++ rest)) as Henum.
    { apply enumerates_cons; (done || lia). }
    exists (sols ++ rest). rewrite length_app, Nat2Z.inj_add.
    destruct (Z.geb_spec (total + k) limit) as [Hge|Hlt].
    + exists (total + k). split; [done|]. split; [done|]. lia.
    + exists total'. split; [done|]. split; [done|]. lia.
Qed.

End CountLoop.

Lemma digits_from_mask_zero : digits_from_mask 0 = [].
Proof. done. Qed.

(** With an empty cell that no digit fits, there is no completion. *)
Lemma dead_end g ms r c s :
  well_formed g → masks_ok g ms → (r < 9)%nat → (c < 9)%nat →
  cell g r c = 0 → candidates_mask ms r c = 0 → ¬ solves g s.
Proof.
  intros (Hshape & _) Hms Hr Hc Hzero Hm Hs.
  destruct (solves_branch g s r c Hshape Hr Hc Hzero Hs) as [Hlegal _].
  apply (candidates_legal g ms r c) in Hlegal; [|done..].
  rewrite Hm, digits_from_mask_zero in Hlegal. by apply elem_of_nil in Hlegal.
Qed.

(** Every completion puts one of the candidates into the selected cell. *)
Lemma solves_candidate g ms r c s :
  well_formed g → masks_ok g ms → (r < 9)%nat → (c < 9)%nat →
  cell g r c = 0 → solves g s →
  cell s r c ∈ digits_from_mask (candidates_mask ms r c).
Proof.
  intros (Hshape & _) Hms Hr Hc Hzero Hs.
  destruct (solves_branch g s r c Hshape Hr Hc Hzero Hs) as [Hlegal _].
  by apply (candidates_legal g ms r c).
Qed.

Lemma count_backtrack_correct limit fuel st :
  inv st → (count_empty (grid_of st) < fuel)%nat →
  ∃ sols k,
    count_backtrack fuel limit st = Ok (st, k) ∧
    solutions (grid_of st) sols ∧ count_spec limit (length sols) k.
Proof.
  revert st. induction fuel as [|fuel IH]; intros st Hinv Hfuel; [lia|].
  pose proof Hinv as [Hwf Hms]. pose proof Hwf as (Hshape & _).
  cbn [count_backtrack].
  destruct (find_mrv_cell (grid_of st) (masks_of st)) as [[[r c] m]|] eqn:Hcell.
  - apply find_mrv_cell_some in Hcell as (Hr & Hc & Hzero & ->).
    destruct (Z.eqb_spec (candidates_mask (masks_of st) r c) 0) as [Hm|Hm].
    + exists [], 0. split; [done|]. split; [|split; [simpl; lia|by left]].
      split; [constructor|]. intros s. split; [by intros ?%elem_of_nil|].
      intros Hs. exfalso. by apply (dead_end (grid_of st) (masks_of st) r c s).
    + destruct (count_loop_correct (count_backtrack fuel limit) limit st r c
                  Hinv Hr Hc Hzero) with
        (ds := digits_from_mask (candidates_mask (masks_of st) r c)) (total := 0)
        as (sols & k & Hloop & Henum & Hle & Hfin).
      * intros d Hd. apply IH; [by apply inv_place|].
        pose proof (proj1 (digit_candidate _ _ _ _) Hd) as [Hd19 _].
        pose proof (count_empty_place (grid_of st) r c d Hshape Hr Hc Hzero
                      ltac:(lia)).
        simpl. lia.
      * apply NoDup_digits_from_mask.
      * done.
      * lia.
      * exists sols, k. split; [done|]. split; [|split; lia].
        eapply enumerates_iff; [|exact Henum]. intros s. simpl. split.
        -- by intros [? _].
        -- intros Hs. split; [done|].
           by apply (solves_candidate (grid_of st)).
  - apply find_mrv_cell_none in Hcell.
    exists [grid_of st], 1. split; [done|]. split; [|split; [simpl; lia|by left]].
    split; [apply NoDup_singleton|]. intros s.
    rewrite list_elem_of_singleton. symmetry. by apply solves_complete.
Qed.

Lemma well_formed_nonneg g : well_formed g → nonneg g.
Proof.
  intros (_ & Hrange & _). eapply Forall_impl; [exact Hrange|].
  intros rc Hrc. simpl in *. lia.
Qed.

Lemma bind_Ok {A B} (a : A) (f : A → result B) : Ok a ≫= f = f a.
Proof. done. Qed.

Lemma bind_Raise {A B} (e : exn) (f : A → result B) : Raise e ≫= f = Raise e.
Proof. done. Qed.

Lemma max_depth_enough g : (count_empty g < max_depth)%nat.
Proof. pose proof (count_empty_le g). unfold max_depth. lia. Qed.

Lemma count_solutions_correct g limit :
  well_formed g →
  ∃ sols k,
    count_solutions g limit = Ok (g, k) ∧
    solutions g sols ∧ count_spec limit (length sols) k.
Proof.
  intros Hwf. unfold count_solutions.
  destruct (build_masks_ok g) as (ms & -> & Hms); [by apply well_formed_nonneg|].
  rewrite bind_Ok.
  destruct (count_backtrack_correct limit max_depth (mkState g ms))
    as (sols & k & -> & Hsols & Hspec); [done|apply max_depth_enough|].
  rewrite bind_Ok. by exists sols, k.
Qed.

(** ** The randomised search *)

Section Solve.

Context {RNG World : Type} {RS : RandomSource RNG World}.

Section SolveLoop.

Variable rec : State → RNG → result (State * RNG * bool).
Variables (st : State) (r c : nat).
Hypothesis Hinv : inv st.
Hypotheses (Hr : (r < 9)%nat) (Hc : (c < 9)%nat).
Hypothesis Hzero : cell (grid_of st) r c = 0.
Hypothesis Hrec :
  ∀ d rng, d ∈ digits_from_mask (candidates_mask (masks_of st) r c) →
    ∃ st' rng' found,
      rec (place st r c d) rng = Ok (st', rng', found) ∧
      solve_spec (place st r c d) st' found.

Lemma solve_loop_correct ds rng :
  (∀ d, d ∈ ds → d ∈ digits_from_mask (candidates_mask (masks_of st) r c)) →
  ∃ st' rng' found,
    solve_loop rec r c ds st rng = Ok (st', rng', found) ∧
    if found then solves (grid_of st) (grid_of st')
    else st' = st ∧ ∀ s, solves (grid_of st) s → cell s r c ∉ ds.
Proof.
  pose proof Hinv as [(Hshape & _) _].
  revert rng. induction ds as [|d ds IH]; intros rng Hds.
  - exists st, rng, false. split; [done|]. split; [done|].
    intros s _. apply not_elem_of_nil.
  - assert (d ∈ digits_from_mask (candidates_mask (masks_of st) r c)) as Hd
      by (apply Hds; by left).
    pose proof (proj1 (digit_candidate _ _ _ _) Hd) as [Hd19 _].
    destruct (Hrec d rng Hd) as (st1 & rng1 & found & Hcall & Hspec).
    cbn [solve_loop]. rewrite Hcall, bind_Ok. destruct found.
    + exists st1, rng1, true. split; [done|].
      simpl in Hspec.
      by apply solves_child in Hspec as [? _]; [|done..|lia].
    + destruct Hspec as [-> Hnone]. rewrite unplace_place by done.
      destruct (IH rng1) as (st' & rng' & found & Hloop & Hfin);
        [intros; apply Hds; by right|].
      exists st', rng', found. split; [done|].
      destruct found; [done|]. destruct Hfin as [-> Hrest]. split; [done|].
      intros s Hs [Heq|Hin]%elem_of_cons; [|by apply (Hrest s)].
      apply (Hnone s). simpl. apply solves_place; (done || lia).
Qed.

End SolveLoop.

Lemma solve_backtrack_correct fuel st rng :
  inv st → (count_empty (grid_of st) < fuel)%nat →
  ∃ st' rng' found,
    solve_backtrack fuel st rng = Ok (st', rng', found) ∧
    solve_spec st st' found.
Proof.
  revert st rng. induction fuel as [|fuel IH]; intros st rng Hinv Hfuel; [lia|].
  pose proof Hinv as [Hwf Hms]. pose proof Hwf as (Hshape & _).
  cbn [solve_backtrack].
  destruct (find_mrv_cell (grid_of st) (masks_of st)) as [[[r c] m]|] eqn:Hcell.
  - apply find_mrv_cell_some in Hcell as (Hr & Hc & Hzero & ->).
    destruct (Z.eqb_spec (candidates_mask (masks_of st) r c) 0) as [Hm|Hm].
    + exists st, rng, false. split; [done|]. split; [done|].
      intros s. by apply (dead_end (grid_of st) (masks_of st) r c s).
    + unfold digits_from_mask_rng.
      pose proof (shuffle_perm Z rng
        (digits_from_mask (candidates_mask (masks_of st) r c))) as Hperm.
      destruct (shuffle rng _) as [ds rng1]. simpl in Hperm.
      destruct (solve_loop_correct (solve_backtrack fuel) st r c
                  Hinv Hr Hc Hzero) with (ds := ds) (rng := rng1)
        as (st' & rng' & found & Hloop & Hfin).
      * intros d rng0 Hd. apply IH; [by apply inv_place|].
        pose proof (proj1 (digit_candidate _ _ _ _) Hd) as [Hd19 _].
        pose proof (count_empty_place (grid_of st) r c d Hshape Hr Hc Hzero
                      ltac:(lia)).
        simpl. lia.
      * intros d Hd. by rewrite <- Hperm.
      * exists st', rng', found. split; [done|].
        destruct found; [done|]. destruct Hfin as [-> Hnone]. split; [done|].
        intros s Hs. apply (Hnone s Hs). rewrite Hperm.
        by apply (solves_candidate (grid_of st)).
  - apply find_mrv_cell_none in Hcell.
    exists st, rng, true. split; [done|]. simpl. by apply solves_complete.
Qed.

Lemma solve_one_correct g rng :
  well_formed g →
  ∃ g' rng' found,
    solve_one g rng = Ok (g', rng', found) ∧
    if found then solves g g' else g' = g ∧ ∀ s, ¬ solves g s.
Proof.
  intros Hwf. unfold solve_one.
  destruct (build_masks_ok g) as (ms & -> & Hms); [by apply well_formed_nonneg|].
  rewrite bind_Ok.
  destruct (solve_backtrack_correct max_depth (mkState g ms) rng)
    as (st' & rng' & found & -> & Hspec); [done|apply max_depth_enough|].
  rewrite bind_Ok. exists (grid_of st'), rng', found. split; [done|].
  destruct found; [done|]. destruct Hspec as [-> Hnone]. done.
Qed.

End Solve.

(** ** Digging *)

Lemma solutions_singleton g s sols :
  solutions g sols → (∀ s', solves g s' ↔ s' = s) → sols = [s].
Proof.
  intros [Hnd Hin] Hs.
  destruct sols as [|a sols].
  - exfalso. apply (not_elem_of_nil s). apply Hin. by apply Hs.
  - assert (a = s) as -> by (apply Hs, Hin; left).
    destruct sols as [|b sols]; [done|].
    assert (b = s) as -> by (apply Hs, Hin; right; left).
    apply NoDup_cons in Hnd as [Hnotin _]. exfalso. apply Hnotin. left.
Qed.

Lemma solved_well_formed s : solved s → well_formed s.
Proof.
  intros Hs. split; [apply Hs|]. split; [|by apply solved_no_duplicates].
  apply Forall_all_cells. intros r c Hr Hc. simpl.
  pose proof (solved_digit s r c Hs Hr Hc). lia.
Qed.

Lemma dug_from_well_formed full p :
  solved full → dug_from full p → well_formed p.
Proof.
  intros Hfull [Hshape Hcells].
  pose proof (solved_well_formed full Hfull) as (_ & Hrange & Hnd).
  split; [done|]. split.
  - apply Forall_all_cells. intros r c Hr Hc. simpl.
    pose proof (in_range_cell full r c Hrange Hr Hc).
    destruct (Hcells r c Hr Hc) as [->| ->]; lia.
  - apply Forall_all_cells. intros r1 c1 Hr1 Hc1.
    apply Forall_all_cells. intros r2 c2 Hr2 Hc2. simpl.
    intros Hne Hsame Hnz Heq.
    destruct (Hcells r1 c1 Hr1 Hc1) as [?|H1]; [done|].
    destruct (Hcells r2 c2 Hr2 Hc2) as [?|H2]; [congruence|].
    apply (no_duplicates_cell full r1 c1 r2 c2); try done; congruence.
Qed.

Lemma dug_from_solves full p : solved full → dug_from full p → solves p full.
Proof.
  intros Hfull [Hshape Hcells]. split; [done|].
  apply Forall_all_cells. intros r c Hr Hc. simpl. intros Hnz.
  destruct (Hcells r c Hr Hc); [done|congruence].
Qed.

Lemma count_one_unique g s :
  well_formed g → solves g s → count_solutions g 2 = Ok (g, 1) →
  solutions g [s].
Proof.
  intros Hwf Hs Hcount.
  destruct (count_solutions_correct g 2 Hwf) as (sols & k & Hk & Hsols & Hspec).
  rewrite Hcount in Hk. inversion Hk; subst k.
  destruct Hspec as [Hle Hfin].
  assert (length sols = 1%nat) as Hlen by lia.
  destruct sols as [|a [|b sols]]; try done.
  assert (a = s) as ->; [|done].
  destruct Hsols as [_ Hin]. apply Hin in Hs.
  by apply list_elem_of_singleton in Hs.
Qed.

Lemma count_solved s : solved s → count_solutions s 2 = Ok (s, 1).
Proof.
  intros Hs. pose proof (solved_well_formed s Hs) as Hwf.
  destruct (count_solutions_correct s 2 Hwf) as (sols & k & Hk & Hsols & Hspec).
  rewrite (solutions_singleton s s sols) in Hspec; [|done|].
  - rewrite Hk. destruct Hspec as [Hle Hfin]. simpl in *.
    assert (k = 1) as -> by lia. done.
  - intros s'. apply solves_complete; [done|by apply solved_complete].
Qed.

Lemma paired_cases symmetry r c :
  paired symmetry r c = [(r, c)] ∨
  (symmetry = true ∧ (r, c) ≠ mirror (r, c) ∧
   paired symmetry r c = [(r, c); mirror (r, c)]).
Proof.
  unfold paired, mirror. destruct symmetry; simpl; [|by left].
  case_decide; [by left|right; done].
Qed.

Lemma mirror_lt rc :
  (rc.1 < 9)%nat → (rc.2 < 9)%nat →
  ((mirror rc).1 < 9)%nat ∧ ((mirror rc).2 < 9)%nat ∧ mirror (mirror rc) = rc.
Proof.
  destruct rc as [r c]. unfold mirror. simpl. intros Hr Hc.
  split; [lia|]. split; [lia|]. f_equal; lia.
Qed.

(** Emptying the targets and writing the saved values back changes
    nothing. *)
Lemma write_back_clear symmetry p r c :
  shape9 p → (r < 9)%nat → (c < 9)%nat →
  let backup := backup_of p (paired symmetry r c) in
  write_back (clear_cells p backup) backup = p.
Proof.
  intros Hp Hr Hc. 
  destruct (mirror_lt (r, c) Hr Hc) as (Hr2 & Hc2 & _).
  destruct (paired_cases symmetry r c) as [->|(_ & Hne & ->)];
    unfold write_back, clear_cells, backup_of; simpl.
  - rewrite grid_set_set by done. by apply grid_set_same.
  - simpl in Hr2, Hc2. apply grid_ext; [by do 4 apply shape9_grid_set|done|].
    intros r' c' Hr' Hc'.
    rewrite !cell_grid_set by first [done | repeat apply shape9_grid_set; done].
    unfold mirror in Hne. simpl in Hne.
    repeat case_decide; congruence.
Qed.

Lemma cell_clear symmetry p r c r' c' :
  shape9 p → (r < 9)%nat → (c < 9)%nat →
  cell (clear_cells p (backup_of p (paired symmetry r c))) r' c' =
    if decide ((r', c') ∈ paired symmetry r c) then 0 else cell p r' c'.
Proof.
  intros Hp Hr Hc.
  destruct (mirror_lt (r, c) Hr Hc) as (Hr2 & Hc2 & _). simpl in Hr2, Hc2.
  destruct (paired_cases symmetry r c) as [->|(_ & Hne & ->)];
    unfold clear_cells, backup_of; simpl;
    rewrite !cell_grid_set by first [done | repeat apply shape9_grid_set; done];
    repeat case_decide; try done;
    repeat match goal with
           | H : _ ∈ _ :: _ |- _ => apply elem_of_cons in H as [H|H]
           | H : _ ∈ [] |- _ => by apply elem_of_nil in H
           | H : _ ∉ _ |- _ => exfalso; apply H; clear H
           end;
    unfold mirror in *; simpl in *; try congruence;
    rewrite ?elem_of_cons; auto.
Qed.

Lemma shape9_clear p backup : shape9 p → shape9 (clear_cells p backup).
Proof.
  unfold clear_cells. revert p.
  induction backup as [|t backup IH]; intros p Hp; [done|].
  simpl. apply IH. by apply shape9_grid_set.
Qed.

Lemma paired_mirror r c q :
  (r < 9)%nat → (c < 9)%nat →
  q ∈ paired true r c → mirror q ∈ paired true r c.
Proof.
  intros Hr Hc Hq.
  destruct (mirror_lt (r, c) Hr Hc) as (_ & _ & Hmm).
  destruct (paired_cases true r c) as [Hp|(_ & Hne & Hp)]; rewrite Hp in Hq |- *.
  - apply list_elem_of_singleton in Hq as ->.
    unfold paired in Hp. simpl in Hp. case_decide as Heq; [|done].
    unfold mirror. simpl. rewrite <- Heq. left.
  - apply elem_of_cons in Hq as [->|Hq]; [right; left|].
    apply list_elem_of_singleton in Hq as ->. rewrite Hmm. left.
Qed.

Lemma paired_in_range symmetry r c q :
  (r < 9)%nat → (c < 9)%nat → q ∈ paired symmetry r c →
  (q.1 < 9)%nat ∧ (q.2 < 9)%nat.
Proof.
  intros Hr Hc Hq.
  destruct (paired_cases symmetry r c) as [Hp|(_ & _ & Hp)]; rewrite Hp in Hq.
  - by apply list_elem_of_singleton in Hq as ->.
  - apply elem_of_cons in Hq as [->|Hq]; [done|].
    apply list_elem_of_singleton in Hq as ->. simpl. lia.
Qed.

Lemma dig_step_inv symmetry full p rc :
  solved full → dig_inv symmetry full p → (rc.1 < 9)%nat → (rc.2 < 9)%nat →
  ∃ p', dig_step symmetry p rc = Ok p' ∧ dig_inv symmetry full p'.
Proof.
  intros Hfull (Hdug & Hcount & Hsym) Hr Hc. unfold dig_step.
  destruct (forallb _ _); [by exists p|].
  change (map _ (paired symmetry rc.1 rc.2))
    with (backup_of p (paired symmetry rc.1 rc.2)).
  set (p1 := clear_cells p (backup_of p (paired symmetry rc.1 rc.2))).
  pose proof Hdug as [Hshape Hcells].
  assert (dug_from full p1) as Hdug1.
  { split; [by apply shape9_clear|]. intros r c Hr' Hc'. unfold p1.
    rewrite cell_clear by done. case_decide; [by left|by apply Hcells]. }
  pose proof (dug_from_well_formed full p1 Hfull Hdug1) as Hwf1.
  destruct (count_solutions_correct p1 2 Hwf1) as (sols & k & Hk & _).
  rewrite Hk, bind_Ok. destruct (Z.eqb_spec k 1) as [->|Hk1]; simpl.
  - exists p1. split; [done|]. split; [done|]. split; [done|].
    intros -> [r c] Hq Hzero.
    apply elem_of_all_cells in Hq as [Hqr Hqc].
    destruct (mirror_lt (r, c) Hqr Hqc) as (Hmr & Hmc & Hmm).
    specialize (Hsym eq_refl (r, c)).
    pose proof (paired_mirror rc.1 rc.2 (r, c) Hr Hc) as Hpm.
    destruct (mirror (r, c)) as [mr mc]. simpl in *.
    unfold p1 in Hzero |- *. rewrite cell_clear in Hzero |- * by done.
    destruct (decide ((mr, mc) ∈ paired true rc.1 rc.2)) as [Hin|Hnin]; [done|].
    destruct (decide ((r, c) ∈ paired true rc.1 rc.2)) as [Hin'|Hnin'].
    + exfalso. by apply Hnin, Hpm.
    + apply Hsym; [|done]. by apply elem_of_all_cells.
  - exists p. split; [|done]. f_equal. by apply write_back_clear.
Qed.

Lemma dig_loop_raise symmetry cells (x : result Grid) :
  (∀ p, x ≠ Ok p) →
  fold_left (fun acc rc => p ← acc; dig_step symmetry p rc) cells x = x.
Proof.
  revert x. induction cells as [|rc cells IH]; intros x Hx; [done|].
  simpl. destruct x as [p| |]; [by destruct (Hx p)|apply IH; done..].
Qed.

Lemma dig_loop_inv symmetry full cells p :
  solved full → dig_inv symmetry full p →
  Forall (fun rc => (rc.1 < 9)%nat ∧ (rc.2 < 9)%nat) cells →
  ∃ p', dig_loop symmetry cells p = Ok p' ∧ dig_inv symmetry full p'.
Proof.
  intros Hfull Hinv Hcells. revert p Hinv. unfold dig_loop.
  induction Hcells as [|rc cells [Hr Hc] _ IH]; intros p Hinv; [by exists p|].
  cbn [fold_left]. rewrite bind_Ok.
  destruct (dig_step_inv symmetry full p rc Hfull Hinv Hr Hc) as (p1 & -> & Hinv1).
  by apply IH.
Qed.

Lemma dig_inv_init symmetry full : solved full → dig_inv symmetry full full.
Proof.
  intros Hfull. split; [|split].
  - split; [apply Hfull|]. intros; by right.
  - by apply count_solved.
  - intros _ [r c] Hq Hzero. apply elem_of_all_cells in Hq as [Hr Hc].
    pose proof (solved_digit full r c Hfull Hr Hc). simpl in Hzero. lia.
Qed.

Section Dig.

Context {RNG World : Type} {RS : RandomSource RNG World}.

Lemma remove_cells_unique_inv full rng symmetry :
  solved full →
  ∃ p rng', remove_cells_unique full rng symmetry = Ok (p, rng') ∧
            dig_inv symmetry full p.
Proof.
  intros Hfull. unfold remove_cells_unique.
  pose proof (shuffle_perm _ rng all_cells) as Hperm.
  destruct (shuffle rng all_cells) as [cells rng']. simpl in Hperm.
  destruct (dig_loop_inv symmetry full cells full Hfull) as (p & -> & Hinv).
  - by apply dig_inv_init.
  - rewrite Hperm. apply Forall_forall. intros [r c] Hin.
    by apply elem_of_all_cells in Hin.
  - rewrite bind_Ok. by exists p, rng'.
Qed.

End Dig.

(** ** Termination without assumptions on the digits

    The searches come back, with grid and masks as they found them, on
    every 9x9 grid whose masks could be built, whether or not its digits
    obey the rules. *)

Lemma inv0_place st r c d :
  inv0 st → (r < 9)%nat → (c < 9)%nat → cell (grid_of st) r c = 0 →
  d ∈ digits_from_mask (candidates_mask (masks_of st) r c) →
  inv0 (place st r c d) ∧
  (count_empty (grid_of (place st r c d)) < count_empty (grid_of st))%nat.
Proof.
  intros [Hshape Hms] Hr Hc Hzero Hd.
  pose proof (proj1 (digit_candidate _ _ _ _) Hd) as [Hd19 _].
  destruct st as [g ms]. simpl in *. split; [split|]; simpl.
  - by apply shape9_grid_set.
  - apply (masks_ok_place g ms r c d); (done || lia).
  - pose proof (count_empty_place g r c d Hshape Hr Hc Hzero ltac:(lia)). lia.
Qed.

Lemma count_loop_total rec limit st r c ds total :
  inv0 st → (r < 9)%nat → (c < 9)%nat → cell (grid_of st) r c = 0 →
  (∀ d, d ∈ digits_from_mask (candidates_mask (masks_of st) r c) →
        ∃ k, rec (place st r c d) = Ok (place st r c d, k)) →
  (∀ d, d ∈ ds → d ∈ digits_from_mask (candidates_mask (masks_of st) r c)) →
  ∃ total', count_loop rec limit r c ds st total = Ok (st, total').
Proof.
  intros [Hshape Hms] Hr Hc Hzero Hrec. revert total.
  induction ds as [|d ds IH]; intros total Hds; [by exists total|].
  destruct (Hrec d) as [k Hk]; [apply Hds; by left|].
  cbn [count_loop]. rewrite Hk, bind_Ok.
  rewrite unplace_place by (done || apply Hds; by left).
  destruct (total + k >=? limit); [by exists (total + k)|].
  apply IH. intros; apply Hds; by right.
Qed.

Lemma count_backtrack_total limit fuel st :
  inv0 st → (count_empty (grid_of st) < fuel)%nat →
  ∃ k, count_backtrack fuel limit st = Ok (st, k).
Proof.
  revert st. induction fuel as [|fuel IH]; intros st Hinv Hfuel; [lia|].
  cbn [count_backtrack].
  destruct (find_mrv_cell (grid_of st) (masks_of st)) as [[[r c] m]|] eqn:Hcell;
    [|by exists 1].
  apply find_mrv_cell_some in Hcell as (Hr & Hc & Hzero & ->).
  destruct (_ =? 0); [by exists 0|].
  apply count_loop_total; try done.
  intros d Hd. destruct (inv0_place st r c d) as [Hinv' Hlt]; [done..|].
  apply IH; [done|lia].
Qed.

Section SolveTotal.

Context {RNG World : Type} {RS : RandomSource RNG World}.

Lemma solve_loop_total (rec : State → RNG → result (State * RNG * bool))
    st r c ds rng :
  inv0 st → (r < 9)%nat → (c < 9)%nat → cell (grid_of st) r c = 0 →
  (∀ d rng0, d ∈ digits_from_mask (candidates_mask (masks_of st) r c) →
     ∃ st' rng' found, rec (place st r c d) rng0 = Ok (st', rng', found) ∧
                       (found = false → st' = place st r c d)) →
  (∀ d, d ∈ ds → d ∈ digits_from_mask (candidates_mask (masks_of st) r c)) →
  ∃ st' rng' found, solve_loop rec r c ds st rng = Ok (st', rng', found) ∧
                    (found = false → st' = st).
Proof.
  intros [Hshape Hms] Hr Hc Hzero Hrec. revert rng.
  induction ds as [|d ds IH]; intros rng Hds; [by exists st, rng, false|].
  destruct (Hrec d rng) as (st1 & rng1 & found & Hcall & Hsame);
    [apply Hds; by left|].
  cbn [solve_loop]. rewrite Hcall, bind_Ok. destruct found.
  - by exists st1, rng1, true.
  - rewrite Hsame by done.
    rewrite unplace_place by (done || apply Hds; by left).
    apply IH. intros; apply Hds; by right.
Qed.

Lemma solve_backtrack_total fuel st rng :
  inv0 st → (count_empty (grid_of st) < fuel)%nat →
  ∃ st' rng' found, solve_backtrack fuel st rng = Ok (st', rng', found) ∧
                    (found = false → st' = st).
Proof.
  revert st rng. induction fuel as [|fuel IH]; intros st rng Hinv Hfuel; [lia|].
  cbn [solve_backtrack].
  destruct (find_mrv_cell (grid_of st) (masks_of st)) as [[[r c] m]|] eqn:Hcell;
    [|by exists st, rng, true].
  apply find_mrv_cell_some in Hcell as (Hr & Hc & Hzero & ->).
  destruct (_ =? 0); [by exists st, rng, false|].
  unfold digits_from_mask_rng.
  pose proof (shuffle_perm Z rng
    (digits_from_mask (candidates_mask (masks_of st) r c))) as Hperm.
  destruct (shuffle rng _) as [ds rng1]. simpl in Hperm.
  apply solve_loop_total; try done.
  - intros d rng0 Hd. destruct (inv0_place st r c d) as [Hinv' Hlt]; [done..|].
    apply IH; [done|lia].
  - intros d Hd. by rewrite <- Hperm.
Qed.

End SolveTotal.

(** ** Generation *)

Lemma sample_solution_solved : solved sample_solution.
Proof. compute_done. Qed.

Lemma empty_grid_well_formed : well_formed empty_grid.
Proof. compute_done. Qed.

Lemma empty_grid_solvable : solves empty_grid sample_solution.
Proof. compute_done. Qed.

Section Generate.

Context {RNG World : Type} {RS : RandomSource RNG World}.

Lemma generate_full_grid_ok seed w :
  ∃ g w', generate_full_grid seed w = Ok (g, w') ∧ solved g.
Proof.
  unfold generate_full_grid. destruct (Random seed w) as [rng w'].
  destruct (solve_one_correct empty_grid rng empty_grid_well_formed)
    as (g & rng' & found & Hsolve & Hspec).
  change (replicate 9 (replicate 9 0)) with empty_grid.
  rewrite Hsolve, bind_Ok. destruct found.
  - exists g, w'. split; [done|]. apply Hspec.
  - destruct Hspec as [_ Hnone]. destruct (Hnone _ empty_grid_solvable).
Qed.

Lemma generate_full_grid_seeded k w w' :
  returned (generate_full_grid (Some k) w) =
  returned (generate_full_grid (Some k) w').
Proof.
  unfold generate_full_grid.
  pose proof (Random_seeded k w w') as Hrng.
  destruct (Random (Some k) w) as [rng w1],
    (Random (Some k) w') as [rng' w1']. simpl in Hrng. subst rng'.
  destruct (solve_one _ rng) as [[[g rng1] found]| |]; [|done..].
  rewrite !bind_Ok. by destruct found.
Qed.

Lemma attempt_seeded symmetry best rng w w' :
  forget (attempt symmetry (best, rng, w)) =
  forget (attempt symmetry (best, rng, w')).
Proof.
  unfold attempt. destruct (randrange rng (10 ^ 9)) as [k rng1].
  pose proof (generate_full_grid_seeded k w w') as Hgen.
  destruct (generate_full_grid (Some k) w) as [[solution w1]| |],
    (generate_full_grid (Some k) w') as [[solution' w1']| |];
    simpl in Hgen; inversion Hgen; subst; try done.
  rewrite !bind_Ok.
  destruct (remove_cells_unique _ rng1 symmetry) as [[puzzle rng2]| |];
    [|done..].
  rewrite !bind_Ok. by destruct (_ >? _).
Qed.

Lemma attempts_loop_seeded n symmetry best rng w w' :
  forget (attempts_loop n symmetry (best, rng, w)) =
  forget (attempts_loop n symmetry (best, rng, w')).
Proof.
  revert best rng w w'. induction n as [|n IH]; intros best rng w w'; [done|].
  cbn [attempts_loop].
  pose proof (attempt_seeded symmetry best rng w w') as Hatt.
  destruct (attempt symmetry (best, rng, w)) as [[[best1 rng1] w1]| |],
    (attempt symmetry (best, rng, w')) as [[[best1' rng1'] w1']| |];
    simpl in Hatt; inversion Hatt; subst; try done.
  rewrite !bind_Ok. apply IH.
Qed.

Lemma generate_puzzle_seeded attempts symmetry seed w w' :
  returned (generate_puzzle attempts symmetry (Some seed) w) =
  returned (generate_puzzle attempts symmetry (Some seed) w').
Proof.
  unfold generate_puzzle.
  pose proof (Random_seeded seed w w') as Hrng.
  destruct (Random (Some seed) w) as [rng w0],
    (Random (Some seed) w') as [rng' w0']. simpl in Hrng. subst rng'.
  pose proof (attempts_loop_seeded (Z.to_nat attempts) symmetry
                (mkBest None None (-1)) rng w0 w0') as Hloop.
  destruct (attempts_loop _ _ (_, rng, w0)) as [[[best rng1] w1]| |],
    (attempts_loop _ _ (_, rng, w0')) as [[[best' rng1'] w1']| |];
    simpl in Hloop; inversion Hloop; subst; try done.
  rewrite !bind_Ok.
  by destruct (best_puzzle best'), (best_solution best').
Qed.

Lemma count_zeros_nonneg p : 0 ≤ count_zeros p.
Proof. unfold count_zeros. lia. Qed.

Lemma attempt_ok symmetry best rng w :
  best_zeros best < 0 ∨ best_ok symmetry best →
  ∃ best' rng' w', attempt symmetry (best, rng, w) = Ok (best', rng', w') ∧
                   best_ok symmetry best'.
Proof.
  intros Hbest. unfold attempt. destruct (randrange rng (10 ^ 9)) as [k rng1].
  destruct (generate_full_grid_ok (Some k) w) as (solution & w1 & -> & Hsolved).
  rewrite bind_Ok.
  destruct (remove_cells_unique_inv solution rng1 symmetry Hsolved)
    as (puzzle & rng2 & -> & Hdig).
  rewrite bind_Ok. pose proof (count_zeros_nonneg puzzle) as Hz.
  destruct (Z.gtb_spec (count_zeros puzzle) (best_zeros best)) as [Hgt|Hle].
  - eexists _, rng2, w1. split; [done|]. by exists puzzle, solution.
  - exists best, rng2, w1. split; [done|]. destruct Hbest as [?|?]; [lia|done].
Qed.

Lemma attempts_loop_ok n symmetry best rng w :
  best_ok symmetry best →
  ∃ best' rng' w', attempts_loop n symmetry (best, rng, w) = Ok (best', rng', w') ∧
                   best_ok symmetry best'.
Proof.
  revert best rng w. induction n as [|n IH]; intros best rng w Hbest.
  - by exists best, rng, w.
  - cbn [attempts_loop].
    destruct (attempt_ok symmetry best rng w) as (best1 & rng1 & w1 & -> & Hb1);
      [by right|].
    rewrite bind_Ok. by apply IH.
Qed.

Lemma generate_puzzle_ok attempts symmetry seed w :
  1 ≤ attempts →
  ∃ p s w', generate_puzzle attempts symmetry seed w = Ok (p, s, w') ∧
            solved s ∧ dig_inv symmetry s p.
Proof.
  intros Hatt. unfold generate_puzzle. destruct (Random seed w) as [rng w0].
  destruct (Z.to_nat attempts) as [|n] eqn:Hn; [lia|].
  cbn [attempts_loop].
  destruct (attempt_ok symmetry (mkBest None None (-1)) rng w0)
    as (best1 & rng1 & w1 & -> & Hb1); [left; simpl; lia|].
  rewrite bind_Ok.
  destruct (attempts_loop_ok n symmetry best1 rng1 w1 Hb1)
    as (best & rng' & w' & -> & (p & s & Hp & Hs & Hsolved & Hdig)).
  rewrite bind_Ok, Hp, Hs. by exists p, s, w'.
Qed.

Lemma generate_puzzle_no_attempt attempts symmetry seed w :
  attempts ≤ 0 →
  returned (generate_puzzle attempts symmetry seed w) = Raise AssertionError.
Proof.
  intros Hatt. unfold generate_puzzle. destruct (Random seed w) as [rng w0].
  replace (Z.to_nat attempts) with O by lia. done.
Qed.

End Generate.


(** ** The claims *)

Section Claims.

Context {RNG World : Type} {RS : RandomSource RNG World}.

(** C1: for every complete valid board, every random source and both values
    of the symmetry flag, [remove_cells_unique] returns a puzzle on which
    [count_solutions] with limit 2 returns 1; the puzzle has exactly one
    solution, the board it was dug from. *)
Theorem remove_cells_unique_one_solution (full : Grid) (rng : RNG)
    (symmetry : bool) :
  solved full →
  ∃ puzzle rng',
    remove_cells_unique full rng symmetry = Ok (puzzle, rng') ∧
    count_solutions puzzle 2 = Ok (puzzle, 1) ∧
    solutions puzzle [full].
Proof.
  intros Hfull.
  destruct (remove_cells_unique_inv full rng symmetry Hfull)
    as (puzzle & rng' & Hdig & Hdug & Hcount & _).
  exists puzzle, rng'. split; [done|]. split; [done|].
  apply count_one_unique; [|by apply dug_from_solves|done].
  by apply (dug_from_well_formed full).
Qed.

(** C2 (amended): for every well-formed grid and every cap,
    [count_solutions] leaves the grid as it was and returns a number [n]
    between 0 and the number of solutions; [n] is the number of solutions
    when that is below the cap, and [n] is at least the cap (not always
    equal to it) when there are at least cap solutions. *)
Theorem count_solutions_up_to_cap (g : Grid) (cap : Z) :
  well_formed g →
  ∃ sols n,
    solutions g sols ∧
    count_solutions g cap = Ok (g, n) ∧
    0 ≤ n ≤ Z.of_nat (length sols) ∧
    (Z.of_nat (length sols) < cap → n = Z.of_nat (length sols)) ∧
    (cap ≤ Z.of_nat (length sols) → cap ≤ n).
Proof.
  intros Hwf.
  destruct (count_solutions_correct g cap Hwf)
    as (sols & n & Hcount & Hsols & Hle & Hfin).
  exists sols, n. split; [done|]. split; [done|]. split; [done|]. lia.
Qed.

(** C3: for every seed [generate_full_grid] returns a grid, never raising,
    and in the grid every row, every column and every box contains each
    digit 1..9 exactly once. *)
Theorem generate_full_grid_valid (seed : option Z) (w : World) :
  ∃ grid w',
    generate_full_grid seed w = Ok (grid, w') ∧
    shape9 grid ∧ each_digit_once grid.
Proof.
  destruct (generate_full_grid_ok seed w) as (grid & w' & Hgen & Hshape & Honce).
  by exists grid, w'.
Qed.

(** C4: on a well-formed grid [solve_one] returns [true] exactly when the
    grid has a completion, and then the grid has become a complete valid
    board that keeps the non-empty cells of the input; so [false] is
    returned only for a grid without completion. *)
Theorem solve_one_finds_completion (g : Grid) (rng : RNG) :
  well_formed g →
  ∃ g' rng' found,
    solve_one g rng = Ok (g', rng', found) ∧
    (found = false → ∀ s, ¬ solves g s) ∧
    ((∃ s, solves g s) → found = true ∧ solved g' ∧ agrees g g').
Proof.
  intros Hwf.
  destruct (solve_one_correct g rng Hwf) as (g' & rng' & found & Hsolve & Hspec).
  exists g', rng', found. split; [done|]. destruct found.
  - split; [done|]. intros _. split; [done|]. apply Hspec.
  - destruct Hspec as [_ Hnone]. split; [done|].
    intros [s Hs]. destruct (Hnone s Hs).
Qed.

(** C5 (amended): the entry points validate nothing themselves.  On a 9x9
    grid whose values do not exceed [shift_safe], a negative cell makes
    [build_masks] raise [ValueError], before any search; every other such
    grid, with values above 9 or repeated digits as well, is searched and
    both entry points return.  (A value too large to be shifted is outside
    this statement: there the shift in [bit] fails.) *)
Theorem entry_points_reject_negative_only (g : Grid) (limit : Z) (rng : RNG) :
  shape9 g → modest g →
  (Exists (fun rc => cell g rc.1 rc.2 < 0) all_cells →
   build_masks g = Raise ValueError ∧
   count_solutions g limit = Raise ValueError ∧
   solve_one g rng = Raise ValueError) ∧
  (nonneg g →
   (∃ k, count_solutions g limit = Ok (g, k)) ∧
   (∃ g' rng' found, solve_one g rng = Ok (g', rng', found))).
Proof.
  intros Hshape _. split.
  - intros Hneg. apply build_masks_neg in Hneg.
    unfold count_solutions, solve_one. by rewrite Hneg.
  - intros Hnn. destruct (build_masks_ok g Hnn) as (ms & Hms & Hok).
    unfold count_solutions, solve_one. rewrite Hms, !bind_Ok. split.
    + destruct (count_backtrack_total limit max_depth (mkState g ms))
        as [k ->]; [done|apply max_depth_enough|].
      by exists k.
    + destruct (solve_backtrack_total max_depth (mkState g ms) rng)
        as (st' & rng' & found & -> & _); [done|apply max_depth_enough|].
      by exists (grid_of st'), rng', found.
Qed.

(** C6: on a well-formed grid both closures return.  A call on a grid with
    [n] empty cells needs no more than [n + 1 <= 82] nested activations
    (the fuel), that is, a recursion depth of at most 81; and each
    recursive call is made on a grid with strictly fewer empty cells than
    the grid of its caller. *)
Theorem backtracking_terminates (g : Grid) (limit : Z) (rng : RNG) :
  well_formed g →
  ∃ ms,
    build_masks g = Ok ms ∧
    (count_empty g ≤ 81)%nat ∧
    (∃ k, count_backtrack (S (count_empty g)) limit (mkState g ms)
          = Ok (mkState g ms, k)) ∧
    (∃ st' rng' found,
       solve_backtrack (S (count_empty g)) (mkState g ms) rng
       = Ok (st', rng', found)) ∧
    (∀ st r c m d,
       shape9 (grid_of st) →
       find_mrv_cell (grid_of st) (masks_of st) = Some (r, c, m) →
       d ∈ digits_from_mask m →
       (count_empty (grid_of (place st r c d)) < count_empty (grid_of st))%nat).
Proof.
  intros Hwf. pose proof Hwf as (Hshape & _).
  destruct (build_masks_ok g) as (ms & Hms & Hok); [by apply well_formed_nonneg|].
  exists ms. split; [done|]. split; [apply count_empty_le|].
  split; [|split].
  - apply count_backtrack_total; [done|simpl; lia].
  - destruct (solve_backtrack_total (S (count_empty g)) (mkState g ms) rng)
      as (st' & rng' & found & Hsolve & _); [done|simpl; lia|].
    by exists st', rng', found.
  - intros st r c m d Hst Hcell Hd.
    apply find_mrv_cell_some in Hcell as (Hr & Hc & Hzero & ->).
    pose proof (proj1 (digit_candidate _ _ _ _) Hd) as [Hd19 _].
    pose proof (count_empty_place (grid_of st) r c d Hst Hr Hc Hzero
                  ltac:(lia)).
    simpl. lia.
Qed.

(** C7: on a well-formed grid, with the masks built by [build_masks],
    placing a legal digit at an empty cell and taking it back at once
    leaves the three mask arrays as they were. *)
Theorem place_unplace_masks (g : Grid) (r c : nat) (d : Z) :
  well_formed g → (r < 9)%nat → (c < 9)%nat → cell g r c = 0 →
  legal g r c d →
  ∃ ms,
    build_masks g = Ok ms ∧
    masks_of (unplace (place (mkState g ms) r c d) r c d) = ms.
Proof.
  intros Hwf Hr Hc Hzero Hlegal. pose proof Hwf as (Hshape & _).
  destruct (build_masks_ok g) as (ms & Hms & Hok); [by apply well_formed_nonneg|].
  exists ms. split; [done|].
  rewrite unplace_place; [done..|]. simpl.
  by apply (candidates_legal g ms r c d).
Qed.

(** C8: with symmetric digging on a complete valid board, every cell
    [(r, c)] that was removed and differs from its partner [(8-r, 8-c)]
    has that partner empty in the returned puzzle as well; the centre
    [(4, 4)], and only it, is its own partner and is handled alone. *)
Theorem symmetric_digging (full : Grid) (rng : RNG) :
  solved full →
  ∃ puzzle rng',
    remove_cells_unique full rng true = Ok (puzzle, rng') ∧
    (∀ r c, (r < 9)%nat → (c < 9)%nat →
       cell full r c ≠ 0 → cell puzzle r c = 0 →
       r ≠ (8 - r)%nat ∨ c ≠ (8 - c)%nat →
       cell puzzle (8 - r) (8 - c) = 0) ∧
    (∀ r c, (r < 9)%nat → (c < 9)%nat →
       paired true r c = [(r, c)] ↔ r = 4%nat ∧ c = 4%nat).
Proof.
  intros Hfull.
  destruct (remove_cells_unique_inv full rng true Hfull)
    as (puzzle & rng' & Hdig & _ & _ & Hsym).
  exists puzzle, rng'. split; [done|]. split.
  - intros r c Hr Hc _ Hzero _.
    apply (Hsym eq_refl (r, c)); [by apply elem_of_all_cells|done].
  - intros r c Hr Hc. unfold paired. simpl. case_decide as Heq.
    + split; [|done]. intros _. inversion Heq. lia.
    + split; [done|]. intros [-> ->]. by destruct Heq.
Qed.

(** C9: two calls of [generate_puzzle] with the same attempts, the same
    symmetry flag and the same seed end in the same way, whatever the
    entropy of the system is at either call; with at least one attempt
    both return the same pair of puzzle and solution (and so the same
    number of blanks). *)
Theorem generate_puzzle_deterministic (attempts : Z) (symmetry : bool)
    (seed : Z) (w w' : World) :
  returned (generate_puzzle attempts symmetry (Some seed) w) =
  returned (generate_puzzle attempts symmetry (Some seed) w') ∧
  (1 ≤ attempts →
   ∃ puzzle solution,
     returned (generate_puzzle attempts symmetry (Some seed) w)
       = Ok (puzzle, solution) ∧
     returned (generate_puzzle attempts symmetry (Some seed) w')
       = Ok (puzzle, solution)).
Proof.
  pose proof (generate_puzzle_seeded attempts symmetry seed w w') as Hdet.
  split; [done|]. intros Hatt.
  destruct (generate_puzzle_ok attempts symmetry (Some seed) w Hatt)
    as (p & s & w1 & Hgen & _).
  exists p, s. rewrite <- Hdet, Hgen. done.
Qed.

End Claims.

(** C10: on a well-formed grid and for every cap, [count_solutions] returns
    with its grid argument cell for cell as it was; the closure leaves the
    grid and the masks as it found them, on the early exit as well. *)
Theorem count_solutions_restores_grid (g : Grid) (limit : Z) :
  well_formed g →
  ∃ ms k,
    build_masks g = Ok ms ∧
    count_backtrack max_depth limit (mkState g ms) = Ok (mkState g ms, k) ∧
    count_solutions g limit = Ok (g, k).
Proof.
  intros Hwf. pose proof Hwf as (Hshape & _).
  destruct (build_masks_ok g) as (ms & Hms & Hok); [by apply well_formed_nonneg|].
  destruct (count_backtrack_total limit max_depth (mkState g ms))
    as [k Hk]; [done|apply max_depth_enough|].
  exists ms, k. split; [done|]. split; [done|].
  unfold count_solutions. by rewrite Hms, bind_Ok, Hk.
Qed.

(** ** The claims at concrete inputs *)

Lemma remove_cells_unique_one_solution_witness :
  solved sample_solution ∧
  ∃ puzzle rng',
    remove_cells_unique (RS := counter_source) sample_solution 0%nat true
      = Ok (puzzle, rng') ∧
    count_solutions puzzle 2 = Ok (puzzle, 1) ∧
    solutions puzzle [sample_solution].
Proof.
  assert (solved sample_solution) as Hs by by_evaluation.
  split; [exact Hs|].
  exact (remove_cells_unique_one_solution sample_solution 0%nat true Hs).
Defined.

(** C2 as stated fails.  [three_solutions] is well formed and has at least
    two solutions, yet with cap 2 the count returned is 3: neither within
    [0, cap] nor equal to the cap.  On the empty grid the count is 12 for
    cap 5. *)
Lemma count_solutions_exceeds_cap :
  well_formed three_solutions ∧
  solves three_solutions sample_solution ∧
  solves three_solutions second_solution ∧
  sample_solution ≠ second_solution ∧
  count_solutions three_solutions 2 = Ok (three_solutions, 3) ∧
  ¬ (0 ≤ 3 ≤ 2) ∧
  count_solutions empty_grid 5 = Ok (empty_grid, 12) ∧
  ¬ (12 = 5).
Proof.
  split; [by_evaluation|]. split; [by_evaluation|]. split; [by_evaluation|].
  split; [by_evaluation|]. split; [by vm_compute|]. split; [lia|].
  split; [by vm_compute|lia].
Qed.

Lemma count_solutions_up_to_cap_witness :
  well_formed three_solutions ∧
  ∃ sols n,
    solutions three_solutions sols ∧
    count_solutions three_solutions 2 = Ok (three_solutions, n) ∧
    0 ≤ n ≤ Z.of_nat (length sols) ∧
    (Z.of_nat (length sols) < 2 → n = Z.of_nat (length sols)) ∧
    (2 ≤ Z.of_nat (length sols) → 2 ≤ n).
Proof.
  assert (well_formed three_solutions) as Hwf by by_evaluation.
  split; [exact Hwf|].
  exact (count_solutions_up_to_cap three_solutions 2 Hwf).
Defined.

Lemma generate_full_grid_valid_witness :
  ∃ grid w',
    generate_full_grid (RS := counter_source) (Some 1) 0%nat = Ok (grid, w') ∧
    shape9 grid ∧ each_digit_once grid.
Proof. exact (generate_full_grid_valid (RS := counter_source) (Some 1) 0%nat). Defined.

Lemma solve_one_finds_completion_witness :
  well_formed three_solutions ∧
  ∃ g' rng' found,
    solve_one (RS := counter_source) three_solutions 0%nat
      = Ok (g', rng', found) ∧
    (found = false → ∀ s, ¬ solves three_solutions s) ∧
    ((∃ s, solves three_solutions s) →
     found = true ∧ solved g' ∧ agrees three_solutions g').
Proof.
  assert (well_formed three_solutions) as Hwf by by_evaluation.
  split; [exact Hwf|].
  exact (solve_one_finds_completion (RS := counter_source)
           three_solutions 0%nat Hwf).
Defined.

(** C5 as stated fails.  The board of 81 ones repeats a digit in every
    unit, and [with_ten] holds a value above 9; both are searched, not
    rejected, and both entry points report success. *)
Lemma malformed_grids_accepted :
  shape9 all_ones ∧ malformed all_ones ∧
  count_solutions all_ones 2 = Ok (all_ones, 1) ∧
  solve_one (RS := counter_source) all_ones 0%nat = Ok (all_ones, 0%nat, true) ∧
  ¬ rejected (count_solutions all_ones 2) ∧
  ¬ rejected (solve_one (RS := counter_source) all_ones 0%nat) ∧
  shape9 with_ten ∧ malformed with_ten ∧
  count_solutions with_ten 2 = Ok (with_ten, 1) ∧
  solve_one (RS := counter_source) with_ten 0%nat = Ok (with_ten, 0%nat, true).
Proof.
  assert (count_solutions all_ones 2 = Ok (all_ones, 1)) as Hc by by vm_compute.
  assert (solve_one (RS := counter_source) all_ones 0%nat
          = Ok (all_ones, 0%nat, true)) as Hs by by vm_compute.
  split; [by_evaluation|]. split; [unfold malformed; by_evaluation|].
  split; [done|]. split; [done|].
  split; [rewrite Hc; by intros [e ?]|]. split; [rewrite Hs; by intros [e ?]|].
  split; [by_evaluation|]. split; [unfold malformed; by_evaluation|].
  split; by vm_compute.
Qed.

Lemma entry_points_reject_negative_only_witness :
  shape9 with_negative ∧ modest with_negative ∧
  (Exists (fun rc => cell with_negative rc.1 rc.2 < 0) all_cells →
   build_masks with_negative = Raise ValueError ∧
   count_solutions with_negative 2 = Raise ValueError ∧
   solve_one (RS := counter_source) with_negative 0%nat = Raise ValueError) ∧
  (nonneg with_negative →
   (∃ k, count_solutions with_negative 2 = Ok (with_negative, k)) ∧
   (∃ g' rng' found,
      solve_one (RS := counter_source) with_negative 0%nat
        = Ok (g', rng', found))).
Proof.
  assert (shape9 with_negative) as Hs by by_evaluation.
  assert (modest with_negative) as Hm by by_evaluation.
  split; [exact Hs|]. split; [exact Hm|].
  exact (entry_points_reject_negative_only (RS := counter_source)
           with_negative 2 0%nat Hs Hm).
Defined.

Lemma backtracking_terminates_witness :
  well_formed three_solutions ∧
  ∃ ms,
    build_masks three_solutions = Ok ms ∧
    (count_empty three_solutions ≤ 81)%nat ∧
    (∃ k, count_backtrack (S (count_empty three_solutions)) 2
            (mkState three_solutions ms)
          = Ok (mkState three_solutions ms, k)) ∧
    (∃ st' rng' found,
       solve_backtrack (RS := counter_source)
         (S (count_empty three_solutions)) (mkState three_solutions ms) 0%nat
       = Ok (st', rng', found)) ∧
    (∀ st r c m d,
       shape9 (grid_of st) →
       find_mrv_cell (grid_of st) (masks_of st) = Some (r, c, m) →
       d ∈ digits_from_mask m →
       (count_empty (grid_of (place st r c d)) < count_empty (grid_of st))%nat).
Proof.
  assert (well_formed three_solutions) as Hwf by by_evaluation.
  split; [exact Hwf|].
  exact (backtracking_terminates (RS := counter_source)
           three_solutions 2 0%nat Hwf).
Defined.

Lemma place_unplace_masks_witness :
  well_formed three_solutions ∧ (1 < 9)%nat ∧ (7 < 9)%nat ∧
  cell three_solutions 1 7 = 0 ∧ legal three_solutions 1 7 4 ∧
  ∃ ms,
    build_masks three_solutions = Ok ms ∧
    masks_of (unplace (place (mkState three_solutions ms) 1 7 4) 1 7 4) = ms.
Proof.
  assert (well_formed three_solutions) as Hwf by by_evaluation.
  assert (legal three_solutions 1 7 4) as Hl by by_evaluation.
  assert (cell three_solutions 1 7 = 0) as Hz by reflexivity.
  assert (1 < 9)%nat as Hr by lia.
  assert (7 < 9)%nat as Hc by lia.
  split; [exact Hwf|]. split; [exact Hr|]. split; [exact Hc|].
  split; [exact Hz|]. split; [exact Hl|].
  exact (place_unplace_masks three_solutions 1 7 4 Hwf Hr Hc Hz Hl).
Defined.

Lemma symmetric_digging_witness :
  solved sample_solution ∧
  ∃ puzzle rng',
    remove_cells_unique (RS := counter_source) sample_solution 1%nat true
      = Ok (puzzle, rng') ∧
    (∀ r c, (r < 9)%nat → (c < 9)%nat →
       cell sample_solution r c ≠ 0 → cell puzzle r c = 0 →
       r ≠ (8 - r)%nat ∨ c ≠ (8 - c)%nat →
       cell puzzle (8 - r) (8 - c) = 0) ∧
    (∀ r c, (r < 9)%nat → (c < 9)%nat →
       paired true r c = [(r, c)] ↔ r = 4%nat ∧ c = 4%nat).
Proof.
  assert (solved sample_solution) as Hs by by_evaluation.
  split; [exact Hs|].
  exact (symmetric_digging (RS := counter_source) sample_solution 1%nat Hs).
Defined.

Lemma generate_puzzle_deterministic_witness :
  returned (generate_puzzle (RS := counter_source) 3 true (Some 42) 0%nat) =
  returned (generate_puzzle (RS := counter_source) 3 true (Some 42) 7%nat) ∧
  (1 ≤ 3 →
   ∃ puzzle solution,
     returned (generate_puzzle (RS := counter_source) 3 true (Some 42) 0%nat)
       = Ok (puzzle, solution) ∧
     returned (generate_puzzle (RS := counter_source) 3 true (Some 42) 7%nat)
       = Ok (puzzle, solution)).
Proof.
  exact (generate_puzzle_deterministic (RS := counter_source)
           3 true 42 0%nat 7%nat).
Defined.

Lemma count_solutions_restores_grid_witness :
  well_formed three_solutions ∧
  ∃ ms k,
    build_masks three_solutions = Ok ms ∧
    count_backtrack max_depth 2 (mkState three_solutions ms)
      = Ok (mkState three_solutions ms, k) ∧
    count_solutions three_solutions 2 = Ok (three_solutions, k).
Proof.
  assert (well_formed three_solutions) as Hwf by by_evaluation.
  split; [exact Hwf|].
  exact (count_solutions_restores_grid three_solutions 2 Hwf).
Defined.

(** * Further properties of the code *)

Lemma mrv_scan_min g ms cells seen best cnt r c m :
  mrv_scan g ms cells best cnt = Some (r, c, m) →
  (∀ q, q ∈ seen → cell g q.1 q.2 = 0 → cnt ≤ candidate_count ms q) →
  (∀ rb cb mb, best = Some (rb, cb, mb) → cnt = bit_count mb) →
  bit_count m ≤ 1 ∨
  ∀ q, q ∈ seen ++ cells → cell g q.1 q.2 = 0 → bit_count m ≤ candidate_count ms q.
Proof.
  revert seen best cnt.
  induction cells as [|[r' c'] cells IH]; intros seen best cnt Hscan Hseen Hbest.
  - simpl in Hscan. subst best. right. intros q Hq Hz.
    rewrite app_nil_r in Hq. rewrite <- (Hbest r c m eq_refl). by apply Hseen.
  - simpl in Hscan.
    replace (seen ++ (r', c') :: cells) with ((seen ++ [(r', c')]) ++ cells)
      by (by rewrite <- app_assoc).
    destruct (Z.eqb_spec (cell g r' c') 0) as [Hz|Hnz].
    + destruct (Z.eqb_spec (bit_count (candidates_mask ms r' c')) 0) as [Hc0|Hc0].
      { inversion Hscan; subst. left. simpl. lia. }
      destruct (Z.ltb_spec (bit_count (candidates_mask ms r' c')) cnt) as [Hlt|Hge].
      * destruct (Z.eqb_spec (bit_count (candidates_mask ms r' c')) 1) as [Hc1|Hc1].
        { inversion Hscan; subst. left. lia. }
        apply (IH (seen ++ [(r', c')]) _ _ Hscan).
        -- intros q [Hq|Hq]%elem_of_app Hqz.
           ++ specialize (Hseen q Hq Hqz). lia.
           ++ apply list_elem_of_singleton in Hq as ->.
              unfold candidate_count. simpl. lia.
        -- by intros rb cb mb [= <- <- <-].
      * apply (IH (seen ++ [(r', c')]) _ _ Hscan); [|done].
        intros q [Hq|Hq]%elem_of_app Hqz; [by apply Hseen|].
        apply list_elem_of_singleton in Hq as ->.
        unfold candidate_count. simpl. lia.
    + apply (IH (seen ++ [(r', c')]) _ _ Hscan); [|done].
      intros q [Hq|Hq]%elem_of_app Hqz; [by apply Hseen|].
      apply list_elem_of_singleton in Hq as ->. done.
Qed.

Lemma find_mrv_cell_min g ms r c m :
  find_mrv_cell g ms = Some (r, c, m) →
  bit_count m ≤ 1 ∨
  ∀ r' c', (r' < 9)%nat → (c' < 9)%nat → cell g r' c' = 0 →
    bit_count m ≤ bit_count (candidates_mask ms r' c').
Proof.
  intros Hf. destruct (mrv_scan_min g ms all_cells [] None 10 r c m Hf)
    as [?|Hmin]; [by intros q ?%elem_of_nil|done|by left|right].
  intros r' c' Hr' Hc' Hz. apply (Hmin (r', c')); [|done].
  by apply elem_of_all_cells.
Qed.

Lemma build_masks_inv g ms : build_masks g = Ok ms → nonneg g ∧ masks_ok g ms.
Proof.
  intros Hb.
  destruct (decide (Exists (fun rc => cell g rc.1 rc.2 < 0) all_cells)) as [Hn|Hn].
  - apply build_masks_neg in Hn. congruence.
  - assert (nonneg g) as Hnn.
    { unfold nonneg. apply Forall_forall. intros q Hq.
      destruct (decide (0 ≤ cell g q.1 q.2)) as [|Hlt]; [done|].
      exfalso. apply Hn, Exists_exists. exists q. split; [done|lia]. }
    split; [done|]. destruct (build_masks_ok g Hnn) as (ms' & Hms' & Hok).
    congruence.
Qed.

Lemma StronglySorted_filter_keep {A} (R : A → A → Prop) (P : A → Prop)
    `{∀ x, Decision (P x)} (l : list A) :
  StronglySorted R l → StronglySorted R (filter P l).
Proof.
  induction 1 as [|x l Hs IH Hall]; [constructor|].
  rewrite filter_cons. destruct (decide (P x)); [|done].
  constructor; [done|]. apply Forall_forall. intros y Hy.
  apply list_elem_of_filter in Hy as [_ Hy].
  by apply (proj1 (Forall_forall _ _) Hall).
Qed.

Lemma digits_sorted : StronglySorted Z.lt (map Z.of_nat (seq 1 9)).
Proof. simpl. repeat (constructor; [|repeat constructor; lia]). constructor. Qed.

Lemma count_backtrack_full limit fuel st :
  complete (grid_of st) →
  count_backtrack (S fuel) limit st = Ok (st, 1).
Proof.
  intros Hfull. cbn [count_backtrack].
  by rewrite (find_mrv_cell_complete _ _ Hfull).
Qed.

(** With limit 1 the count never passes 1. *)
Lemma count_loop_one (rec : State → result (State * Z)) st r c ds :
  inv0 st → (r < 9)%nat → (c < 9)%nat → cell (grid_of st) r c = 0 →
  (∀ d, d ∈ digits_from_mask (candidates_mask (masks_of st) r c) →
        ∃ k, rec (place st r c d) = Ok (place st r c d, k) ∧ 0 ≤ k ≤ 1) →
  (∀ d, d ∈ ds → d ∈ digits_from_mask (candidates_mask (masks_of st) r c)) →
  ∃ total', count_loop rec 1 r c ds st 0 = Ok (st, total') ∧ 0 ≤ total' ≤ 1.
Proof.
  intros [Hshape Hms] Hr Hc Hzero Hrec.
  induction ds as [|d ds IH]; intros Hds; [exists 0; split; [done|lia]|].
  destruct (Hrec d) as (k & Hk & Hk01); [apply Hds; by left|].
  cbn [count_loop]. rewrite Hk, bind_Ok.
  rewrite unplace_place by (done || apply Hds; by left).
  destruct (Z.geb_spec (0 + k) 1) as [Hge|Hlt].
  - exists (0 + k). split; [done|lia].
  - replace (0 + k) with 0 by lia. apply IH. intros; apply Hds; by right.
Qed.

Lemma count_backtrack_one fuel st :
  inv0 st → (count_empty (grid_of st) < fuel)%nat →
  ∃ k, count_backtrack fuel 1 st = Ok (st, k) ∧ 0 ≤ k ≤ 1.
Proof.
  revert st. induction fuel as [|fuel IH]; intros st Hinv Hfuel; [lia|].
  cbn [count_backtrack].
  destruct (find_mrv_cell (grid_of st) (masks_of st)) as [[[r c] m]|] eqn:Hcell;
    [|exists 1; split; [done|lia]].
  apply find_mrv_cell_some in Hcell as (Hr & Hc & Hzero & ->).
  destruct (_ =? 0); [exists 0; split; [done|lia]|].
  apply count_loop_one; try done.
  intros d Hd. destruct (inv0_place st r c d) as [Hinv' Hlt]; [done..|].
  apply IH; [done|lia].
Qed.

Section SolveKeeps.

Context {RNG World : Type} {RS : RandomSource RNG World}.

Lemma agrees_trans_place g r c d s :
  shape9 g → (r < 9)%nat → (c < 9)%nat → cell g r c = 0 →
  agrees (grid_set g r c d) s → agrees g s.
Proof.
  intros Hg Hr Hc Hzero Hag. apply Forall_all_cells. intros r' c' Hr' Hc'. simpl.
  intros Hnz. pose proof (agrees_cell _ _ r' c' Hag Hr' Hc') as Hcell.
  rewrite cell_grid_set in Hcell by done.
  case_decide as Heq; [inversion Heq; subst; done|by apply Hcell].
Qed.

Lemma solve_loop_frame (rec : State → RNG → result (State * RNG * bool))
    st r c ds rng :
  inv0 st → (r < 9)%nat → (c < 9)%nat → cell (grid_of st) r c = 0 →
  (∀ d rng0, d ∈ digits_from_mask (candidates_mask (masks_of st) r c) →
     ∃ st' rng' found, rec (place st r c d) rng0 = Ok (st', rng', found) ∧
                       solve_frame (place st r c d) st' found) →
  (∀ d, d ∈ ds → d ∈ digits_from_mask (candidates_mask (masks_of st) r c)) →
  ∃ st' rng' found, solve_loop rec r c ds st rng = Ok (st', rng', found) ∧
                    solve_frame st st' found.
Proof.
  intros [Hshape Hms] Hr Hc Hzero Hrec. revert rng.
  induction ds as [|d ds IH]; intros rng Hds; [by exists st, rng, false|].
  destruct (Hrec d rng) as (st1 & rng1 & found & Hcall & Hframe);
    [apply Hds; by left|].
  cbn [solve_loop]. rewrite Hcall, bind_Ok. destruct found.
  - exists st1, rng1, true. split; [done|].
    destruct Hframe as (Hfull & Hsh & Hag). split; [done|]. split; [done|].
    by apply (agrees_trans_place _ r c d).
  - simpl in Hframe. subst st1.
    rewrite unplace_place by (done || apply Hds; by left).
    apply IH. intros; apply Hds; by right.
Qed.

Lemma solve_backtrack_frame fuel st rng :
  inv0 st → (count_empty (grid_of st) < fuel)%nat →
  ∃ st' rng' found, solve_backtrack fuel st rng = Ok (st', rng', found) ∧
                    solve_frame st st' found.
Proof.
  revert st rng. induction fuel as [|fuel IH]; intros st rng Hinv Hfuel; [lia|].
  cbn [solve_backtrack].
  destruct (find_mrv_cell (grid_of st) (masks_of st)) as [[[r c] m]|] eqn:Hcell.
  - apply find_mrv_cell_some in Hcell as (Hr & Hc & Hzero & ->).
    destruct (_ =? 0); [by exists st, rng, false|].
    unfold digits_from_mask_rng.
    pose proof (shuffle_perm Z rng
      (digits_from_mask (candidates_mask (masks_of st) r c))) as Hperm.
    destruct (shuffle rng _) as [ds rng1]. simpl in Hperm.
    apply solve_loop_frame; try done.
    + intros d rng0 Hd. destruct (inv0_place st r c d) as [Hinv' Hlt]; [done..|].
      apply IH; [done|lia].
    + intros d Hd. by rewrite <- Hperm.
  - apply find_mrv_cell_none in Hcell. exists st, rng, true. split; [done|].
    split; [done|]. split; [apply Hinv|apply agrees_refl].
Qed.

End SolveKeeps.

(** ** What the digger leaves *)

Lemma dug_from_refl p : shape9 p → dug_from p p.
Proof. intros Hp. split; [done|]. intros; by right. Qed.

Lemma dug_from_trans a b c :
  dug_from a b → dug_from b c → dug_from a c.
Proof.
  intros [_ Hab] [Hc Hbc]. split; [done|]. intros r c' Hr Hc'.
  destruct (Hbc r c' Hr Hc') as [?|Heq]; [by left|].
  rewrite Heq. apply Hab; done.
Qed.

Lemma dug_from_without symmetry p r c :
  shape9 p → (r < 9)%nat → (c < 9)%nat →
  dug_from p (without p (paired symmetry r c)).
Proof.
  intros Hp Hr Hc. split; [by apply shape9_clear|]. intros r' c' Hr' Hc'.
  unfold without. rewrite cell_clear by done. case_decide; [by left|by right].
Qed.

Lemma all_empty_without symmetry p r c :
  shape9 p → (r < 9)%nat → (c < 9)%nat →
  all_empty (without p (paired symmetry r c)) (paired symmetry r c).
Proof.
  intros Hp Hr Hc. apply Forall_forall. intros [r' c'] Hin. simpl.
  unfold without. rewrite cell_clear by done. by rewrite decide_True.
Qed.

Lemma forallb_all_empty p targets :
  forallb (fun t => cell p t.1 t.2 =? 0) targets = true ↔ all_empty p targets.
Proof.
  unfold all_empty. rewrite forallb_forall, Forall_forall. split.
  - intros Hall t Ht. apply Z.eqb_eq, Hall. by apply list_elem_of_In.
  - intros Hall t Ht. apply Z.eqb_eq, Hall. by apply list_elem_of_In.
Qed.

Lemma blocked_mono symmetry full p p' rc :
  shape9 p → dug_from p p' → (rc.1 < 9)%nat → (rc.2 < 9)%nat →
  blocked symmetry full p rc → blocked symmetry full p' rc.
Proof.
  intros Hp [Hp' Hcells] Hr Hc [Hall|(s & Hne & Hsolved & Hag)].
  - left. apply Forall_forall. intros t Ht.
    pose proof (proj1 (Forall_forall _ _) Hall t Ht) as Hz.
    destruct (paired_in_range symmetry rc.1 rc.2 t Hr Hc Ht) as [Htr Htc].
    destruct (Hcells t.1 t.2 Htr Htc) as [?|Heq]; [done|congruence].
  - right. exists s. split; [done|]. split; [done|].
    apply Forall_all_cells. intros r' c' Hr' Hc'. simpl.
    pose proof (agrees_cell _ _ r' c' Hag Hr' Hc') as Hs.
    unfold without in *. rewrite cell_clear in Hs |- * by done.
    case_decide; [done|]. intros Hnz.
    destruct (Hcells r' c' Hr' Hc') as [?|Heq]; [done|].
    rewrite Heq. apply Hs. congruence.
Qed.

Lemma two_solutions g a sols :
  solutions g sols → solves g a → (2 ≤ length sols)%nat →
  ∃ s, s ≠ a ∧ solves g s.
Proof.
  intros [Hnd Hin] Ha Hlen.
  destruct sols as [|x [|y sols]]; simpl in Hlen; [lia..|].
  destruct (decide (x = a)) as [->|Hxa].
  - exists y. split; [|apply Hin; right; left].
    intros ->. apply NoDup_cons in Hnd as [Hnotin _]. apply Hnotin. left.
  - exists x. split; [done|]. apply Hin. left.
Qed.

Lemma another_solution_count g a s :
  well_formed g → solves g a → solves g s → s ≠ a →
  ∃ n, count_solutions g 2 = Ok (g, n) ∧ 2 ≤ n.
Proof.
  intros Hwf Ha Hs Hne.
  destruct (count_solutions_correct g 2 Hwf) as (sols & n & Hn & Hsols & Hle & Hfin).
  exists n. split; [done|].
  assert (2 ≤ length sols)%nat as Hlen.
  { destruct Hsols as [Hnd Hin]. apply Hin in Ha, Hs.
    destruct sols as [|x [|y sols]]; simpl; [by apply elem_of_nil in Ha| |lia].
    apply list_elem_of_singleton in Ha, Hs. congruence. }
  lia.
Qed.

Lemma dig_step_blocked symmetry full p rc p' :
  solved full → dig_inv symmetry full p → (rc.1 < 9)%nat → (rc.2 < 9)%nat →
  dig_step symmetry p rc = Ok p' →
  dug_from p p' ∧ blocked symmetry full p' rc.
Proof.
  intros Hfull (Hdug & Hcount & Hsym) Hr Hc. unfold dig_step.
  pose proof Hdug as [Hshape Hcells].
  destruct (forallb _ _) eqn:Hall.
  { intros [= <-]. split; [by apply dug_from_refl|].
    left. by apply forallb_all_empty. }
  change (map _ (paired symmetry rc.1 rc.2))
    with (backup_of p (paired symmetry rc.1 rc.2)).
  change (clear_cells p (backup_of p (paired symmetry rc.1 rc.2)))
    with (without p (paired symmetry rc.1 rc.2)).
  set (p1 := without p (paired symmetry rc.1 rc.2)).
  assert (dug_from p p1) as Hdug1 by by apply dug_from_without.
  assert (dug_from full p1) as Hdugf by by apply (dug_from_trans full p).
  pose proof (dug_from_well_formed full p1 Hfull Hdugf) as Hwf1.
  destruct (count_solutions_correct p1 2 Hwf1) as (sols & k & Hk & Hsols & Hle & Hfin).
  rewrite Hk, bind_Ok. destruct (Z.eqb_spec k 1) as [->|Hk1]; simpl.
  - intros [= <-]. split; [done|]. left. by apply all_empty_without.
  - intros [= <-]. unfold p1, without. rewrite write_back_clear by done.
    split; [by apply dug_from_refl|]. right.
    apply (two_solutions p1 full sols); [done|by apply dug_from_solves|].
    pose proof (dug_from_solves full p1 Hfull Hdugf) as Hf.
    destruct Hsols as [_ Hin]. apply Hin in Hf.
    destruct sols as [|x [|y sols]]; simpl in *; [by apply elem_of_nil in Hf|lia|lia].
Qed.

Lemma dig_loop_blocked symmetry full cells seen p :
  solved full → dig_inv symmetry full p →
  Forall (fun rc => (rc.1 < 9)%nat ∧ (rc.2 < 9)%nat) cells →
  Forall (fun rc => (rc.1 < 9)%nat ∧ (rc.2 < 9)%nat) seen →
  Forall (blocked symmetry full p) seen →
  ∃ p', dig_loop symmetry cells p = Ok p' ∧ dig_inv symmetry full p' ∧
        Forall (blocked symmetry full p') (seen ++ cells).
Proof.
  intros Hfull Hinv Hcells. revert seen p Hinv. unfold dig_loop.
  induction Hcells as [|rc cells [Hr Hc] _ IH]; intros seen p Hinv Hseen Hblocked.
  - exists p. by rewrite app_nil_r.
  - cbn [fold_left]. rewrite bind_Ok.
    destruct (dig_step_inv symmetry full p rc Hfull Hinv Hr Hc) as (p1 & Hstep & Hinv1).
    destruct (dig_step_blocked symmetry full p rc p1 Hfull Hinv Hr Hc Hstep)
      as [Hdug Hb]. rewrite Hstep.
    replace (seen ++ rc :: cells) with ((seen ++ [rc]) ++ cells)
      by (by rewrite <- app_assoc).
    apply IH; [done| |].
    + apply Forall_app. split; [done|]. by apply Forall_singleton.
    + apply Forall_app. split; [|by apply Forall_singleton].
      apply Forall_forall. intros q Hq.
      pose proof (proj1 (Forall_forall _ _) Hseen q Hq) as [Hqr Hqc].
      apply (blocked_mono symmetry full p); [apply Hinv|done..|].
      by apply (proj1 (Forall_forall _ _) Hblocked).
Qed.

Section DigMore.

Context {RNG World : Type} {RS : RandomSource RNG World}.

Lemma remove_cells_unique_blocked full rng symmetry :
  solved full →
  ∃ p rng', remove_cells_unique full rng symmetry = Ok (p, rng') ∧
            dig_inv symmetry full p ∧
            Forall (blocked symmetry full p) all_cells.
Proof.
  intros Hfull. unfold remove_cells_unique.
  pose proof (shuffle_perm _ rng all_cells) as Hperm.
  destruct (shuffle rng all_cells) as [cells rng']. simpl in Hperm.
  assert (Forall (fun rc => (rc.1 < 9)%nat ∧ (rc.2 < 9)%nat) cells) as Hrange.
  { rewrite Hperm. apply Forall_forall. intros [r c] Hin.
    by apply elem_of_all_cells in Hin. }
  destruct (dig_loop_blocked symmetry full cells [] full Hfull)
    as (p & -> & Hinv & Hb); [by apply dig_inv_init|done|done|done|].
  rewrite bind_Ok. exists p, rng'. split; [done|]. split; [done|].
  simpl in Hb. by rewrite <- Hperm.
Qed.

End DigMore.

(** ** A unit with one unknown cell *)

Lemma elem_of_row_unit r q : q ∈ row_unit r ↔ q.1 = r ∧ (q.2 < 9)%nat.
Proof.
  unfold row_unit. rewrite list_elem_of_fmap. split.
  - intros (c & -> & Hc). apply elem_of_seq in Hc. simpl. lia.
  - intros [<- Hc]. exists q.2. split; [by destruct q|]. apply elem_of_seq. lia.
Qed.

Lemma elem_of_col_unit c q : q ∈ col_unit c ↔ q.2 = c ∧ (q.1 < 9)%nat.
Proof.
  unfold col_unit. rewrite list_elem_of_fmap. split.
  - intros (r & -> & Hr). apply elem_of_seq in Hr. simpl. lia.
  - intros [<- Hr]. exists q.1. split; [by destruct q|]. apply elem_of_seq. lia.
Qed.

Lemma row_unit_in_units r : (r < 9)%nat → row_unit r ∈ units.
Proof.
  intros Hr. unfold units. apply elem_of_app. left.
  apply (list_elem_of_fmap_2 (fun r => map (fun c => (r, c)) (seq 0 9))).
  apply elem_of_seq. lia.
Qed.

Lemma col_unit_in_units c : (c < 9)%nat → col_unit c ∈ units.
Proof.
  intros Hc. unfold units. apply elem_of_app. right. apply elem_of_app. left.
  apply (list_elem_of_fmap_2 (fun c => map (fun r => (r, c)) (seq 0 9))).
  apply elem_of_seq. lia.
Qed.

(** Two solved boards that agree on a unit but for one cell agree on that
    cell too. *)
Lemma unit_determines s full u t :
  solved s → solved full → u ∈ units → t ∈ u →
  (∀ q, q ∈ u → q ≠ t → cell s q.1 q.2 = cell full q.1 q.2) →
  cell s t.1 t.2 = cell full t.1 t.2.
Proof.
  intros Hs Hfull Hu Ht Hrest.
  pose proof (unit_Permutation s u Hs Hu) as Hps.
  pose proof (unit_Permutation full u Hfull Hu) as Hpf.
  assert (cell full t.1 t.2 ∈ unit_values s u) as Hin.
  { rewrite Hps, <- Hpf.
    by apply (list_elem_of_fmap_2 (fun rc => cell full rc.1 rc.2)). }
  apply list_elem_of_fmap in Hin as (q & Hq & Hqu).
  destruct (decide (q = t)) as [->|Hne]; [done|].
  exfalso. apply Hne.
  apply (NoDup_map_inj (fun rc => cell full rc.1 rc.2) u); [|done..|].
  - change (NoDup (unit_values full u)). rewrite Hpf. apply NoDup_digits.
  - rewrite <- (Hrest q Hqu Hne). done.
Qed.

Lemma units_in_range u q :
  u ∈ units → q ∈ u → (q.1 < 9)%nat ∧ (q.2 < 9)%nat.
Proof.
  intros Hu Hq.
  pose proof (proj1 (Forall_forall _ _) units_wf u Hu) as (_ & _ & Hcells).
  pose proof (proj1 (Forall_forall _ _) Hcells q Hq) as [Hin _].
  destruct q as [r c]. by apply elem_of_all_cells in Hin.
Qed.

(** A unit through [t] that misses another cell [o]. *)
Lemma lone_unit t o :
  t ≠ o → (t.1 < 9)%nat → (t.2 < 9)%nat →
  ∃ u, u ∈ units ∧ t ∈ u ∧ o ∉ u.
Proof.
  intros Hne Hr Hc. destruct (decide (t.1 = o.1)) as [Hrow|Hrow].
  - exists (col_unit t.2). split; [by apply col_unit_in_units|].
    split; [by apply elem_of_col_unit|].
    intros [Ho2 _]%elem_of_col_unit. apply Hne.
    destruct t, o. simpl in *. congruence.
  - exists (row_unit t.1). split; [by apply row_unit_in_units|].
    split; [by apply elem_of_row_unit|].
    intros [Ho1 _]%elem_of_row_unit. congruence.
Qed.

Lemma paired_lone_unit symmetry r c t :
  (r < 9)%nat → (c < 9)%nat → t ∈ paired symmetry r c →
  ∃ u, u ∈ units ∧ t ∈ u ∧ ∀ q, q ∈ u → q ∈ paired symmetry r c → q = t.
Proof.
  intros Hr Hc Ht.
  destruct (paired_in_range symmetry r c t Hr Hc Ht) as [Htr Htc].
  destruct (paired_cases symmetry r c) as [Hp|(_ & Hne & Hp)]; rewrite Hp in *.
  - exists (row_unit t.1). split; [by apply row_unit_in_units|].
    split; [by apply elem_of_row_unit|].
    apply list_elem_of_singleton in Ht as ->.
    by intros q _ ->%list_elem_of_singleton.
  - apply elem_of_cons in Ht as [->|Ht].
    + destruct (lone_unit (r, c) (mirror (r, c)) Hne Htr Htc) as (u & Hu & Hin & Hout).
      exists u. split; [done|]. split; [done|].
      intros q Hq [->|Hq']%elem_of_cons; [done|].
      apply list_elem_of_singleton in Hq' as ->. done.
    + apply list_elem_of_singleton in Ht as ->.
      destruct (lone_unit (mirror (r, c)) (r, c)) as (u & Hu & Hin & Hout);
        [done..|].
      exists u. split; [done|]. split; [done|].
      intros q Hq [->|Hq']%elem_of_cons; [done|].
      by apply list_elem_of_singleton in Hq' as ->.
Qed.

(** A solved board with one cell, or one cell and its mirror cell, emptied
    has no other completion. *)
Lemma without_pair_unique symmetry full r c s :
  solved full → (r < 9)%nat → (c < 9)%nat →
  solves (without full (paired symmetry r c)) s → s = full.
Proof.
  intros Hfull Hr Hc [Hs Hag]. pose proof Hfull as [Hshape _].
  assert (∀ q, (q.1 < 9)%nat → (q.2 < 9)%nat → q ∉ paired symmetry r c →
               cell s q.1 q.2 = cell full q.1 q.2) as Hout.
  { intros [r' c'] Hr' Hc' Hnotin. simpl in *.
    pose proof (agrees_cell _ _ r' c' Hag Hr' Hc') as Hcell.
    unfold without in Hcell. rewrite cell_clear in Hcell by done.
    rewrite decide_False in Hcell by done. apply Hcell.
    pose proof (solved_digit full r' c' Hfull Hr' Hc'). lia. }
  apply grid_ext; [apply Hs|done|]. intros r' c' Hr' Hc'.
  destruct (decide ((r', c') ∈ paired symmetry r c)) as [Hin|Hnotin];
    [|by apply (Hout (r', c'))].
  destruct (paired_lone_unit symmetry r c (r', c') Hr Hc Hin)
    as (u & Hu & Htu & Hlone).
  apply (unit_determines s full u (r', c') Hs Hfull Hu Htu).
  intros q Hq Hqne. destruct (units_in_range u q Hu Hq) as [Hq1 Hq2].
  apply Hout; [done..|]. intros Hqin. by apply Hqne, Hlone.
Qed.

Lemma dug_complete_eq full p : dug_from full p → shape9 full → complete p → p = full.
Proof.
  intros [Hp Hcells] Hfull Hc. apply grid_ext; [done..|].
  intros r c Hr Hc'. destruct (Hcells r c Hr Hc') as [Hz|?]; [|done].
  by pose proof (proj1 (Forall_all_cells _) Hc r c Hr Hc').
Qed.

Lemma paired_head symmetry r c : (r, c) ∈ paired symmetry r c.
Proof.
  destruct (paired_cases symmetry r c) as [->|(_ & _ & ->)]; left.
Qed.

(** A blocked puzzle is not the full board any more. *)
Lemma blocked_not_complete symmetry full p :
  solved full → dug_from full p → blocked symmetry full p (0%nat, 0%nat) →
  ¬ complete p.
Proof.
  intros Hfull Hdug Hb Hc.
  assert (p = full) as -> by (apply (dug_complete_eq full p); [done|apply Hfull|done]).
  destruct Hb as [Hall|(s & Hne & Hs)].
  - pose proof (proj1 (Forall_forall _ _) Hall _ (paired_head symmetry 0 0)) as Hz.
    simpl in Hz. pose proof (solved_digit full 0 0 Hfull). lia.
  - apply Hne. apply (without_pair_unique symmetry full 0 0); (done || lia).
Qed.

Lemma mask_rel_bound sel g xs k :
  mask_rel sel all_cells g xs → in_range g → (k < 9)%nat →
  0 ≤ at_ xs k ≤ ALL_MASK.
Proof.
  intros [_ Hbits] Hrange Hk.
  assert (Z.land ALL_MASK (at_ xs k) = at_ xs k) as Heq.
  { apply Z.bits_inj'. intros i Hi. rewrite Z.land_spec, testbit_ALL_MASK.
    destruct (Z.testbit (at_ xs k) i) eqn:Hb; [|by rewrite andb_false_r].
    apply Hbits in Hb as (_ & [r c] & Hin & _ & Hv); [|done].
    apply elem_of_all_cells in Hin as [Hr Hc]. simpl in Hv.
    pose proof (in_range_cell g r c Hrange Hr Hc).
    rewrite bool_decide_eq_true_2 by lia. done. }
  rewrite land_ALL_MASK in Heq.
  pose proof (Z.mod_pos_bound (at_ xs k) 512 ltac:(lia)).
  assert (ALL_MASK = 511) as -> by done. lia.
Qed.

Section GenerateMore.

Context {RNG World : Type} {RS : RandomSource RNG World}.

Lemma attempt_min symmetry best rng w :
  best_zeros best < 0 ∨ best_min symmetry best →
  ∃ best' rng' w', attempt symmetry (best, rng, w) = Ok (best', rng', w') ∧
                   best_min symmetry best'.
Proof.
  intros Hbest. unfold attempt. destruct (randrange rng (10 ^ 9)) as [k rng1].
  destruct (generate_full_grid_ok (Some k) w) as (solution & w1 & -> & Hsolved).
  rewrite bind_Ok.
  destruct (remove_cells_unique_blocked solution rng1 symmetry Hsolved)
    as (puzzle & rng2 & -> & Hdig & Hb).
  rewrite bind_Ok. pose proof (count_zeros_nonneg puzzle) as Hz.
  destruct (Z.gtb_spec (count_zeros puzzle) (best_zeros best)) as [Hgt|Hle].
  - eexists _, rng2, w1. split; [done|]. by exists puzzle, solution.
  - exists best, rng2, w1. split; [done|]. destruct Hbest as [?|?]; [lia|done].
Qed.

Lemma attempts_loop_min n symmetry best rng w :
  best_min symmetry best →
  ∃ best' rng' w', attempts_loop n symmetry (best, rng, w) = Ok (best', rng', w') ∧
                   best_min symmetry best'.
Proof.
  revert best rng w. induction n as [|n IH]; intros best rng w Hbest.
  - by exists best, rng, w.
  - cbn [attempts_loop].
    destruct (attempt_min symmetry best rng w) as (best1 & rng1 & w1 & -> & Hb1);
      [by right|].
    rewrite bind_Ok. by apply IH.
Qed.

Lemma generate_puzzle_min attempts symmetry seed w :
  1 ≤ attempts →
  ∃ p s w', generate_puzzle attempts symmetry seed w = Ok (p, s, w') ∧
            solved s ∧ dig_inv symmetry s p ∧
            Forall (blocked symmetry s p) all_cells.
Proof.
  intros Hatt. unfold generate_puzzle. destruct (Random seed w) as [rng w0].
  destruct (Z.to_nat attempts) as [|n] eqn:Hn; [lia|].
  cbn [attempts_loop].
  destruct (attempt_min symmetry (mkBest None None (-1)) rng w0)
    as (best1 & rng1 & w1 & -> & Hb1); [left; simpl; lia|].
  rewrite bind_Ok.
  destruct (attempts_loop_min n symmetry best1 rng1 w1 Hb1)
    as (best & rng' & w' & -> & (p & s & Hp & Hs & Hsolved & Hdig & Hb)).
  rewrite bind_Ok, Hp, Hs. by exists p, s, w'.
Qed.

End GenerateMore.

Lemma not_complete_blank p : ¬ complete p → 1 ≤ count_zeros p.
Proof.
  intros Hnc. unfold count_zeros.
  destruct (filter _ all_cells) as [|q l] eqn:Hf; [|simpl; lia].
  exfalso. apply Hnc. apply Forall_forall. intros q Hq Hz.
  assert (q ∈ filter (fun rc => cell p rc.1 rc.2 = 0) all_cells) as Hin
    by by apply list_elem_of_filter.
  rewrite Hf in Hin. by apply elem_of_nil in Hin.
Qed.

Lemma count_zeros_le p : count_zeros p ≤ 81.
Proof.
  unfold count_zeros.
  pose proof (length_filter (fun rc => cell p rc.1 rc.2 = 0) all_cells) as Hl.
  change (length all_cells) with 81%nat in Hl. lia.
Qed.

Lemma blocked_count symmetry full p rc :
  solved full → dug_from full p → (rc.1 < 9)%nat → (rc.2 < 9)%nat →
  blocked symmetry full p rc →
  all_empty p (paired symmetry rc.1 rc.2) ∨
  ∃ n, count_solutions (without p (paired symmetry rc.1 rc.2)) 2
         = Ok (without p (paired symmetry rc.1 rc.2), n) ∧ 2 ≤ n.
Proof.
  intros Hfull Hdug Hr Hc [Hall|(s & Hne & Hs)]; [by left|right].
  assert (dug_from full (without p (paired symmetry rc.1 rc.2))) as Hdug1.
  { apply (dug_from_trans full p); [done|]. apply dug_from_without; [apply Hdug|done..]. }
  apply (another_solution_count _ full s); try done.
  - by apply (dug_from_well_formed full).
  - by apply dug_from_solves.
Qed.

Lemma cell_text_char v : 0 ≤ v ≤ 9 → cell_text v = String (cell_char v) "".
Proof.
  intros Hv.
  assert (v = 0 ∨ v = 1 ∨ v = 2 ∨ v = 3 ∨ v = 4 ∨ v = 5 ∨ v = 6 ∨ v = 7 ∨
          v = 8 ∨ v = 9) as Hcases by lia.
  repeat destruct Hcases as [->|Hcases]; try subst v; reflexivity.
Qed.

Lemma char_value_cell_char v : 0 ≤ v ≤ 9 → char_value (cell_char v) = v.
Proof.
  intros Hv.
  assert (v = 0 ∨ v = 1 ∨ v = 2 ∨ v = 3 ∨ v = 4 ∨ v = 5 ∨ v = 6 ∨ v = 7 ∨
          v = 8 ∨ v = 9) as Hcases by lia.
  repeat destruct Hcases as [->|Hcases]; try subst v; reflexivity.
Qed.

Lemma print_line g r :
  (r < 9)%nat →
  print_grid_ascii g !! (r + r / 3)%nat = Some (String.concat " " (row_tokens g r)).
Proof.
  intros Hr. do 9 (destruct r as [|r]; [reflexivity|]). lia.
Qed.

Lemma row_line g r :
  (∀ c, (c < 9)%nat → 0 ≤ cell g r c ≤ 9) →
  String.concat " " (row_tokens g r) =
  String.concat " "
    (c ← seq 0 9;
     (if (c mod 3 =? 0)%nat && negb (c =? 0)%nat then ["|"%string] else []) ++
     [String (cell_char (cell g r c)) ""]).
Proof.
  intros Hrow. unfold row_tokens. cbn [seq mbind list_bind].
  rewrite !cell_text_char by (apply Hrow; lia). reflexivity.
Qed.

Lemma in_range_row g r :
  in_range g → (r < 9)%nat → ∀ c, (c < 9)%nat → 0 ≤ cell g r c ≤ 9.
Proof. intros Hg Hr c Hc. by apply in_range_cell. Qed.

Lemma text_cell_print g r c :
  in_range g → (r < 9)%nat → (c < 9)%nat →
  text_cell (print_grid_ascii g) r c = cell g r c.
Proof.
  intros Hg Hr Hc. unfold text_cell.
  rewrite print_line, row_line by (done || by apply in_range_row).
  do 9 (destruct c as [|c];
        [cbn; apply char_value_cell_char; apply in_range_cell; (done || lia)|]).
  lia.
Qed.


Lemma print_grid_ascii_eleven g : length (print_grid_ascii g) = 11%nat.
Proof. reflexivity. Qed.


Lemma print_injective g g' :
  shape9 g → shape9 g' → in_range g → in_range g' →
  print_grid_ascii g = print_grid_ascii g' → g = g'.
Proof.
  intros Hs Hs' Hr Hr' Heq. apply grid_ext; [done..|].
  intros r c Hr0 Hc0.
  rewrite <- (text_cell_print g r c), <- (text_cell_print g' r c) by done.
  by rewrite Heq.
Qed.

(** ** The statistics of the main block *)





(** ** The cell selector and the candidates *)

(** X1: [find_mrv_cell] answers [None] exactly when no cell of the grid is
    empty, whatever the masks hold. *)
Theorem find_mrv_cell_none_iff_full (g : Grid) (ms : Masks) :
  find_mrv_cell g ms = None ↔ complete g.
Proof.
  split; [apply find_mrv_cell_none|apply find_mrv_cell_complete].
Qed.

(** X2: a cell returned by [find_mrv_cell] lies on the board, is empty and
    comes with its candidate mask; it has at most one candidate (the two
    early returns), or no empty cell of the board has fewer candidates. *)
Theorem find_mrv_cell_fewest_candidates (g : Grid) (ms : Masks)
    (r c : nat) (m : Z) :
  find_mrv_cell g ms = Some (r, c, m) →
  (r < 9)%nat ∧ (c < 9)%nat ∧ cell g r c = 0 ∧
  m = candidates_mask ms r c ∧
  (bit_count m ≤ 1 ∨
   ∀ r' c', (r' < 9)%nat → (c' < 9)%nat → cell g r' c' = 0 →
     bit_count m ≤ bit_count (candidates_mask ms r' c')).
Proof.
  intros Hf. pose proof (find_mrv_cell_min g ms r c m Hf) as Hmin.
  apply find_mrv_cell_some in Hf as (Hr & Hc & Hz & Hm). done.
Qed.

Lemma find_mrv_cell_fewest_candidates_witness :
  find_mrv_cell three_solutions three_solutions_masks = Some (1%nat, 7%nat, 136) ∧
  (1 < 9)%nat ∧ (7 < 9)%nat ∧ cell three_solutions 1 7 = 0 ∧
  136 = candidates_mask three_solutions_masks 1 7 ∧
  (bit_count 136 ≤ 1 ∨
   ∀ r' c', (r' < 9)%nat → (c' < 9)%nat → cell three_solutions r' c' = 0 →
     bit_count 136 ≤ bit_count (candidates_mask three_solutions_masks r' c')).
Proof.
  assert (find_mrv_cell three_solutions three_solutions_masks
          = Some (1%nat, 7%nat, 136)) as Hf by reflexivity.
  split; [exact Hf|].
  exact (find_mrv_cell_fewest_candidates three_solutions three_solutions_masks
           1 7 136 Hf).
Defined.

(** X3: with the masks [build_masks] returns for a grid, the digits that
    [digits_from_mask] reads off [candidates_mask] for a cell are exactly
    the digits 1..9 that stand nowhere in the row, the column and the box
    of the cell. *)
Theorem candidates_are_the_legal_digits (g : Grid) (ms : Masks)
    (r c : nat) (d : Z) :
  build_masks g = Ok ms → (r < 9)%nat → (c < 9)%nat →
  d ∈ digits_from_mask (candidates_mask ms r c) ↔ legal g r c d.
Proof.
  intros Hb Hr Hc. apply build_masks_inv in Hb as [_ Hok].
  by apply candidates_legal.
Qed.

Lemma candidates_are_the_legal_digits_witness :
  build_masks three_solutions = Ok three_solutions_masks ∧
  (1 < 9)%nat ∧ (7 < 9)%nat ∧
  (4 ∈ digits_from_mask (candidates_mask three_solutions_masks 1 7) ↔
   legal three_solutions 1 7 4).
Proof.
  assert (build_masks three_solutions = Ok three_solutions_masks) as Hb
    by reflexivity.
  assert (1 < 9)%nat as Hr by lia.
  assert (7 < 9)%nat as Hc by lia.
  split; [exact Hb|]. split; [exact Hr|]. split; [exact Hc|].
  exact (candidates_are_the_legal_digits three_solutions three_solutions_masks
           1 7 4 Hb Hr Hc).
Defined.

(** X4: for every integer mask [digits_from_mask] lists the digits 1..9
    whose bit is set, in ascending order; with a random source the same
    digits come back in some order. *)
Theorem digits_from_mask_lists_set_bits {RNG World : Type}
    {RS : RandomSource RNG World} (m : Z) (rng : RNG) :
  (∀ d, d ∈ digits_from_mask m ↔ 1 ≤ d ≤ 9 ∧ Z.testbit m (d - 1) = true) ∧
  StronglySorted Z.lt (digits_from_mask m) ∧
  (digits_from_mask_rng m rng).1 ≡ₚ digits_from_mask m.
Proof.
  split; [|split].
  - intros d. unfold digits_from_mask.
    rewrite list_elem_of_filter, elem_of_digits. split.
    + intros [Hne Hd]. split; [done|]. by apply land_bit_nonzero; [lia|].
    + intros [Hd Hb]. split; [|done]. by apply land_bit_nonzero; [lia|].
  - apply StronglySorted_filter_keep, digits_sorted.
  - apply shuffle_perm.
Qed.

(** X5: on a 9x9 grid whose values do not exceed [shift_safe],
    [build_masks] raises [ValueError] exactly when a cell is negative and
    returns otherwise; what it returns is three arrays of nine masks in
    which bit [d - 1] of the mask of a row, column or box is set exactly
    when digit [d] stands in that unit, and a grid with values 0..9 gives
    masks within the nine bits of [ALL_MASK]. *)
Theorem build_masks_describes_grid (g : Grid) :
  shape9 g → modest g →
  (build_masks g = Raise ValueError ↔
   Exists (fun rc => cell g rc.1 rc.2 < 0) all_cells) ∧
  (nonneg g → ∃ ms, build_masks g = Ok ms) ∧
  (∀ ms, build_masks g = Ok ms →
     length (row ms) = 9%nat ∧ length (col ms) = 9%nat ∧
     length (box ms) = 9%nat ∧
     (∀ k d, (k < 9)%nat → 1 ≤ d →
        (Z.testbit (at_ (row ms) k) (d - 1) = true ↔
         ∃ c, (c < 9)%nat ∧ cell g k c = d) ∧
        (Z.testbit (at_ (col ms) k) (d - 1) = true ↔
         ∃ r, (r < 9)%nat ∧ cell g r k = d) ∧
        (Z.testbit (at_ (box ms) k) (d - 1) = true ↔
         ∃ r c, (r < 9)%nat ∧ (c < 9)%nat ∧ box_index r c = k ∧
                cell g r c = d)) ∧
     (in_range g → ∀ k, (k < 9)%nat →
        0 ≤ at_ (row ms) k ≤ ALL_MASK ∧ 0 ≤ at_ (col ms) k ≤ ALL_MASK ∧
        0 ≤ at_ (box ms) k ≤ ALL_MASK)).
Proof.
  intros _ _. split; [|split].
  - split; [|apply build_masks_neg]. intros Hraise.
    destruct (decide (Exists (fun rc => cell g rc.1 rc.2 < 0) all_cells))
      as [|Hno]; [done|].
    assert (nonneg g) as Hnn.
    { apply Forall_forall. intros q Hq.
      destruct (decide (0 ≤ cell g q.1 q.2)) as [|Hlt]; [done|].
      exfalso. apply Hno, Exists_exists. exists q. split; [done|lia]. }
    destruct (build_masks_ok g Hnn) as (ms & Hms & _). congruence.
  - intros Hnn. destruct (build_masks_ok g Hnn) as (ms & Hms & _). by exists ms.
  - intros ms Hb. apply build_masks_inv in Hb as [_ (Hrow & Hcol & Hbox)].
    split; [apply Hrow|]. split; [apply Hcol|]. split; [apply Hbox|]. split.
    + intros k d Hk Hd. split; [|split].
      * rewrite (proj2 Hrow k (d - 1) Hk). split.
        -- intros (_ & [r c] & Hin & Hsel & Hv). simpl in *. subst r.
           apply elem_of_all_cells in Hin as [_ Hc]. exists c. split; [done|lia].
        -- intros (c & Hc & Hv). split; [lia|]. exists (k, c).
           rewrite elem_of_all_cells. simpl. split; [done|]. split; [done|lia].
      * rewrite (proj2 Hcol k (d - 1) Hk). split.
        -- intros (_ & [r c] & Hin & Hsel & Hv). simpl in *. subst c.
           apply elem_of_all_cells in Hin as [Hr _]. exists r. split; [done|lia].
        -- intros (r & Hr & Hv). split; [lia|]. exists (r, k).
           rewrite elem_of_all_cells. simpl. split; [done|]. split; [done|lia].
      * rewrite (proj2 Hbox k (d - 1) Hk). split.
        -- intros (_ & [r c] & Hin & Hsel & Hv). unfold box_of in Hsel. simpl in *.
           apply elem_of_all_cells in Hin as [Hr Hc]. exists r, c.
           split; [done|]. split; [done|]. split; [done|lia].
        -- intros (r & c & Hr & Hc & Hsel & Hv). split; [lia|]. exists (r, c).
           rewrite elem_of_all_cells. unfold box_of. simpl.
           split; [done|]. split; [done|lia].
    + intros Hrange k Hk. split; [|split].
      * by apply (mask_rel_bound fst g).
      * by apply (mask_rel_bound snd g).
      * by apply (mask_rel_bound box_of g).
Qed.

Lemma build_masks_describes_grid_witness :
  shape9 with_negative ∧ modest with_negative ∧
  (build_masks with_negative = Raise ValueError ↔
   Exists (fun rc => cell with_negative rc.1 rc.2 < 0) all_cells).
Proof.
  assert (shape9 with_negative) as Hs by by_evaluation.
  assert (modest with_negative) as Hm by by_evaluation.
  split; [exact Hs|]. split; [exact Hm|].
  exact (proj1 (build_masks_describes_grid with_negative Hs Hm)).
Defined.

(** X6: [box_index] sends the cells of the board to the numbers 0..8; two
    cells get the same number exactly when they lie in the same band of
    three rows and the same band of three columns, and every number is the
    box of exactly nine cells. *)
Theorem box_index_partition (r c r' c' : nat) :
  (r < 9)%nat → (c < 9)%nat → (r' < 9)%nat → (c' < 9)%nat →
  (box_index r c < 9)%nat ∧
  (box_index r c = box_index r' c' ↔
   (r / 3 = r' / 3)%nat ∧ (c / 3 = c' / 3)%nat) ∧
  length (filter (fun q => box_index q.1 q.2 = box_index r c) all_cells) = 9%nat.
Proof.
  intros Hr Hc Hr' Hc'.
  assert (Forall (fun p => Forall (fun q =>
            (box_index p.1 p.2 < 9)%nat ∧
            (box_index p.1 p.2 = box_index q.1 q.2 ↔
             (p.1 / 3 = q.1 / 3)%nat ∧ (p.2 / 3 = q.2 / 3)%nat) ∧
            length (filter (fun t => box_index t.1 t.2 = box_index p.1 p.2)
                      all_cells) = 9%nat) all_cells) all_cells) as Hall
    by by_evaluation.
  pose proof (proj1 (Forall_all_cells _) Hall r c Hr Hc) as Hp.
  exact (proj1 (Forall_all_cells _) Hp r' c' Hr' Hc').
Qed.

Lemma box_index_partition_witness :
  (4 < 9)%nat ∧ (7 < 9)%nat ∧ (5 < 9)%nat ∧ (6 < 9)%nat ∧
  (box_index 4 7 < 9)%nat ∧
  (box_index 4 7 = box_index 5 6 ↔ (4 / 3 = 5 / 3)%nat ∧ (7 / 3 = 6 / 3)%nat) ∧
  length (filter (fun q => box_index q.1 q.2 = box_index 4 7) all_cells) = 9%nat.
Proof.
  assert (4 < 9)%nat as H1 by lia. assert (7 < 9)%nat as H2 by lia.
  assert (5 < 9)%nat as H3 by lia. assert (6 < 9)%nat as H4 by lia.
  split; [exact H1|]. split; [exact H2|]. split; [exact H3|]. split; [exact H4|].
  exact (box_index_partition 4 7 5 6 H1 H2 H3 H4).
Defined.

(** ** The searches on arbitrary boards *)

(** X7: on a 9x9 board without empty cell whose values lie in
    [1 .. shift_safe], valid or not, [count_solutions] returns 1 for every
    limit and [solve_one] returns [True]; neither changes the grid, and
    [solve_one] does not touch the random source. *)
Theorem full_board_counts_one {RNG World : Type} {RS : RandomSource RNG World}
    (g : Grid) (limit : Z) (rng : RNG) :
  shape9 g → nonneg g → modest g → complete g →
  count_solutions g limit = Ok (g, 1) ∧
  solve_one g rng = Ok (g, rng, true).
Proof.
  intros _ Hnn _ Hfull. destruct (build_masks_ok g Hnn) as (ms & Hms & _).
  unfold count_solutions, solve_one, max_depth. rewrite Hms, !bind_Ok.
  rewrite count_backtrack_full by done. cbn [solve_backtrack].
  rewrite (find_mrv_cell_complete _ _ Hfull). done.
Qed.

Lemma full_board_counts_one_witness :
  shape9 all_ones ∧ nonneg all_ones ∧ modest all_ones ∧ complete all_ones ∧
  count_solutions all_ones 7 = Ok (all_ones, 1) ∧
  solve_one (RS := counter_source) all_ones 5%nat = Ok (all_ones, 5%nat, true).
Proof.
  assert (shape9 all_ones) as H1 by by_evaluation.
  assert (nonneg all_ones) as H2 by by_evaluation.
  assert (complete all_ones) as H3 by by_evaluation.
  assert (modest all_ones) as H4 by by_evaluation.
  split; [exact H1|]. split; [exact H2|]. split; [exact H4|]. split; [exact H3|].
  exact (full_board_counts_one (RS := counter_source) all_ones 7 5%nat
           H1 H2 H4 H3).
Defined.

(** X8: with limit 1 [count_solutions] is a test for solvability: on a
    well-formed grid it returns 1 when the grid has a completion and 0
    when it has none, and leaves the grid as it was. *)
Theorem count_solutions_limit_one (g : Grid) :
  well_formed g →
  ∃ k, count_solutions g 1 = Ok (g, k) ∧
       (k = 0 ∨ k = 1) ∧
       (k = 1 ↔ ∃ s, solves g s).
Proof.
  intros Hwf. pose proof Hwf as (Hshape & _).
  destruct (count_solutions_correct g 1 Hwf)
    as (sols & k & Hcount & [Hnd Hin] & Hle & Hfin).
  destruct (build_masks_ok g) as (ms & Hms & Hok); [by apply well_formed_nonneg|].
  destruct (count_backtrack_one max_depth (mkState g ms))
    as (k' & Hk' & Hk01); [done|apply max_depth_enough|].
  assert (k' = k) as ->.
  { unfold count_solutions in Hcount. rewrite Hms, bind_Ok, Hk', bind_Ok in Hcount.
    by inversion Hcount. }
  exists k. split; [done|]. split; [lia|]. split.
  - intros ->. destruct sols as [|s sols]; [simpl in *; lia|].
    exists s. apply Hin. left.
  - intros [s Hs]. apply Hin in Hs.
    destruct sols as [|x sols]; [by apply elem_of_nil in Hs|]. simpl in *. lia.
Qed.

Lemma count_solutions_limit_one_witness :
  well_formed three_solutions ∧
  ∃ k, count_solutions three_solutions 1 = Ok (three_solutions, k) ∧
       (k = 0 ∨ k = 1) ∧
       (k = 1 ↔ ∃ s, solves three_solutions s).
Proof.
  assert (well_formed three_solutions) as Hwf by by_evaluation.
  split; [exact Hwf|]. exact (count_solutions_limit_one three_solutions Hwf).
Defined.

(** X9: on every 9x9 grid whose values lie in [0 .. shift_safe], well
    formed or not, [solve_one] returns; when it answers [True] the grid is
    full and every cell that was filled in the input still holds its value,
    and when it answers [False] the grid is exactly as it was. *)
Theorem solve_one_keeps_givens {RNG World : Type} {RS : RandomSource RNG World}
    (g : Grid) (rng : RNG) :
  shape9 g → nonneg g → modest g →
  ∃ g' rng' found,
    solve_one g rng = Ok (g', rng', found) ∧
    (found = true → shape9 g' ∧ complete g' ∧ agrees g g') ∧
    (found = false → g' = g).
Proof.
  intros Hshape Hnn _. destruct (build_masks_ok g Hnn) as (ms & Hms & Hok).
  unfold solve_one. rewrite Hms, bind_Ok.
  destruct (solve_backtrack_frame max_depth (mkState g ms) rng)
    as (st' & rng' & found & -> & Hframe); [done|apply max_depth_enough|].
  rewrite bind_Ok. exists (grid_of st'), rng', found. split; [done|].
  destruct found; simpl in Hframe.
  - split; [|done]. intros _. destruct Hframe as (? & ? & ?). done.
  - split; [done|]. intros _. by subst st'.
Qed.

Lemma solve_one_keeps_givens_witness :
  shape9 with_ten ∧ nonneg with_ten ∧ modest with_ten ∧
  ∃ g' rng' found,
    solve_one (RS := counter_source) with_ten 3%nat = Ok (g', rng', found) ∧
    (found = true → shape9 g' ∧ complete g' ∧ agrees with_ten g') ∧
    (found = false → g' = with_ten).
Proof.
  assert (shape9 with_ten) as H1 by by_evaluation.
  assert (nonneg with_ten) as H2 by by_evaluation.
  assert (modest with_ten) as H3 by by_evaluation.
  split; [exact H1|]. split; [exact H2|]. split; [exact H3|].
  exact (solve_one_keeps_givens (RS := counter_source) with_ten 3%nat
           H1 H2 H3).
Defined.

(** ** The digger and the generator *)

Section DiggerProperties.

Context {RNG World : Type} {RS : RandomSource RNG World}.

(** X10: the puzzle [remove_cells_unique] returns for a complete valid
    board is a 9x9 grid in which every cell is empty or holds the digit of
    the board: writing the digits of the board into the blanks gives the
    board back. *)
Theorem remove_cells_unique_only_blanks (full : Grid) (rng : RNG)
    (symmetry : bool) :
  solved full →
  ∃ puzzle rng',
    remove_cells_unique full rng symmetry = Ok (puzzle, rng') ∧
    shape9 puzzle ∧
    (∀ r c, (r < 9)%nat → (c < 9)%nat →
       cell puzzle r c = 0 ∨ cell puzzle r c = cell full r c) ∧
    agrees puzzle full.
Proof.
  intros Hfull.
  destruct (remove_cells_unique_inv full rng symmetry Hfull)
    as (puzzle & rng' & Hdig & Hdug & _).
  exists puzzle, rng'. split; [done|]. split; [apply Hdug|].
  split; [apply Hdug|]. by apply (dug_from_solves full puzzle).
Qed.

(** X11: the puzzle is locally minimal for the removals the digger tries.
    For every cell of the board, the cells [paired] gives for it are all
    empty in the returned puzzle, or emptying them in the returned puzzle
    makes [count_solutions] with limit 2 return at least 2: no removal the
    digger rejected has become possible later. *)
Theorem remove_cells_unique_locally_minimal (full : Grid) (rng : RNG)
    (symmetry : bool) :
  solved full →
  ∃ puzzle rng',
    remove_cells_unique full rng symmetry = Ok (puzzle, rng') ∧
    ∀ r c, (r < 9)%nat → (c < 9)%nat →
      all_empty puzzle (paired symmetry r c) ∨
      ∃ n, count_solutions (without puzzle (paired symmetry r c)) 2
             = Ok (without puzzle (paired symmetry r c), n) ∧ 2 ≤ n.
Proof.
  intros Hfull.
  destruct (remove_cells_unique_blocked full rng symmetry Hfull)
    as (puzzle & rng' & Hdig & (Hdug & _) & Hb).
  exists puzzle, rng'. split; [done|]. intros r c Hr Hc.
  apply (blocked_count symmetry full puzzle (r, c)); try done.
  apply (proj1 (Forall_forall _ _) Hb). by apply elem_of_all_cells.
Qed.

(** X12: the digger always removes something: the puzzle it returns for a
    complete valid board has at least one empty cell (and at most 81). *)
Theorem remove_cells_unique_removes (full : Grid) (rng : RNG)
    (symmetry : bool) :
  solved full →
  ∃ puzzle rng',
    remove_cells_unique full rng symmetry = Ok (puzzle, rng') ∧
    1 ≤ count_zeros puzzle ≤ 81 ∧ puzzle ≠ full.
Proof.
  intros Hfull.
  destruct (remove_cells_unique_blocked full rng symmetry Hfull)
    as (puzzle & rng' & Hdig & (Hdug & _) & Hb).
  exists puzzle, rng'. split; [done|].
  assert (¬ complete puzzle) as Hnc.
  { apply (blocked_not_complete symmetry full); [done..|].
    apply (proj1 (Forall_forall _ _) Hb). apply elem_of_all_cells. lia. }
  split; [split; [by apply not_complete_blank|apply count_zeros_le]|].
  intros ->. apply Hnc. by apply solved_complete.
Qed.

(** X13: with at least one attempt and any seed (or none)
    [generate_puzzle] returns a pair of puzzle and solution: the solution
    is a complete valid board, the puzzle is the solution with at least one
    cell emptied, [count_solutions] with limit 2 returns 1 on the puzzle,
    and the solution is the only completion of the puzzle. *)
Theorem generate_puzzle_sound (attempts : Z) (symmetry : bool)
    (seed : option Z) (w : World) :
  1 ≤ attempts →
  ∃ puzzle solution w',
    generate_puzzle attempts symmetry seed w = Ok (puzzle, solution, w') ∧
    solved solution ∧
    (∀ r c, (r < 9)%nat → (c < 9)%nat →
       cell puzzle r c = 0 ∨ cell puzzle r c = cell solution r c) ∧
    1 ≤ count_zeros puzzle ∧
    count_solutions puzzle 2 = Ok (puzzle, 1) ∧
    solutions puzzle [solution].
Proof.
  intros Hatt.
  destruct (generate_puzzle_min attempts symmetry seed w Hatt)
    as (p & s & w' & Hgen & Hsolved & (Hdug & Hcount & _) & Hb).
  exists p, s, w'. split; [done|]. split; [done|]. split; [apply Hdug|].
  split; [|split; [done|]].
  - apply not_complete_blank, (blocked_not_complete symmetry s); [done..|].
    apply (proj1 (Forall_forall _ _) Hb). apply elem_of_all_cells. lia.
  - apply count_one_unique; [by apply (dug_from_well_formed s)| |done].
    by apply dug_from_solves.
Qed.

(** X14: with no attempt ([attempts <= 0]) [generate_puzzle] fails its
    final assertion, for every seed: it never returns without a puzzle. *)
Theorem generate_puzzle_without_attempt (attempts : Z) (symmetry : bool)
    (seed : option Z) (w : World) :
  attempts ≤ 0 →
  generate_puzzle attempts symmetry seed w = Raise AssertionError.
Proof.
  intros Hatt. unfold generate_puzzle. destruct (Random seed w) as [rng w0].
  replace (Z.to_nat attempts) with O by lia. done.
Qed.

End DiggerProperties.

Lemma remove_cells_unique_only_blanks_witness :
  solved sample_solution ∧
  ∃ puzzle rng',
    remove_cells_unique (RS := counter_source) sample_solution 2%nat false
      = Ok (puzzle, rng') ∧
    shape9 puzzle ∧
    (∀ r c, (r < 9)%nat → (c < 9)%nat →
       cell puzzle r c = 0 ∨ cell puzzle r c = cell sample_solution r c) ∧
    agrees puzzle sample_solution.
Proof.
  assert (solved sample_solution) as Hs by by_evaluation.
  split; [exact Hs|].
  exact (remove_cells_unique_only_blanks (RS := counter_source)
           sample_solution 2%nat false Hs).
Defined.

Lemma remove_cells_unique_locally_minimal_witness :
  solved sample_solution ∧
  ∃ puzzle rng',
    remove_cells_unique (RS := counter_source) sample_solution 2%nat true
      = Ok (puzzle, rng') ∧
    ∀ r c, (r < 9)%nat → (c < 9)%nat →
      all_empty puzzle (paired true r c) ∨
      ∃ n, count_solutions (without puzzle (paired true r c)) 2
             = Ok (without puzzle (paired true r c), n) ∧ 2 ≤ n.
Proof.
  assert (solved sample_solution) as Hs by by_evaluation.
  split; [exact Hs|].
  exact (remove_cells_unique_locally_minimal (RS := counter_source)
           sample_solution 2%nat true Hs).
Defined.

Lemma remove_cells_unique_removes_witness :
  solved sample_solution ∧
  ∃ puzzle rng',
    remove_cells_unique (RS := counter_source) sample_solution 3%nat true
      = Ok (puzzle, rng') ∧
    1 ≤ count_zeros puzzle ≤ 81 ∧ puzzle ≠ sample_solution.
Proof.
  assert (solved sample_solution) as Hs by by_evaluation.
  split; [exact Hs|].
  exact (remove_cells_unique_removes (RS := counter_source)
           sample_solution 3%nat true Hs).
Defined.

Lemma generate_puzzle_sound_witness :
  1 ≤ 2 ∧
  ∃ puzzle solution w',
    generate_puzzle (RS := counter_source) 2 true None 5%nat
      = Ok (puzzle, solution, w') ∧
    solved solution ∧
    (∀ r c, (r < 9)%nat → (c < 9)%nat →
       cell puzzle r c = 0 ∨ cell puzzle r c = cell solution r c) ∧
    1 ≤ count_zeros puzzle ∧
    count_solutions puzzle 2 = Ok (puzzle, 1) ∧
    solutions puzzle [solution].
Proof.
  assert (1 ≤ 2) as Ha by lia.
  split; [exact Ha|].
  exact (generate_puzzle_sound (RS := counter_source) 2 true None 5%nat Ha).
Defined.

Lemma generate_puzzle_without_attempt_witness :
  0 ≤ 0 ∧
  generate_puzzle (RS := counter_source) 0 true (Some 42) 0%nat
    = Raise AssertionError.
Proof.
  assert (0 ≤ 0) as Ha by lia.
  split; [exact Ha|].
  exact (generate_puzzle_without_attempt (RS := counter_source)
           0 true (Some 42) 0%nat Ha).
Defined.

(** ** Text output *)


(** X16: the printed text determines the board: two 9x9 grids with values
    0..9 that print the same lines are the same grid.  Cell [(r, c)] is the
    character at column [2 * (c + c / 3)] of line [r + r / 3], a dot for an
    empty cell. *)
Theorem print_grid_ascii_injective (g g' : Grid) :
  shape9 g → shape9 g' → in_range g → in_range g' →
  (∀ r c, (r < 9)%nat → (c < 9)%nat →
     text_cell (print_grid_ascii g) r c = cell g r c) ∧
  (print_grid_ascii g = print_grid_ascii g' → g = g').
Proof.
  intros Hs Hs' Hr Hr'. split.
  - intros r c Hr0 Hc0. by apply text_cell_print.
  - by apply print_injective.
Qed.

Lemma print_grid_ascii_injective_witness :
  shape9 three_solutions ∧ shape9 sample_solution ∧
  in_range three_solutions ∧ in_range sample_solution ∧
  (∀ r c, (r < 9)%nat → (c < 9)%nat →
     text_cell (print_grid_ascii three_solutions) r c = cell three_solutions r c) ∧
  (print_grid_ascii three_solutions = print_grid_ascii sample_solution →
   three_solutions = sample_solution).
Proof.
  assert (shape9 three_solutions) as H1 by by_evaluation.
  assert (shape9 sample_solution) as H2 by by_evaluation.
  assert (in_range three_solutions) as H3 by by_evaluation.
  assert (in_range sample_solution) as H4 by by_evaluation.
  split; [exact H1|]. split; [exact H2|]. split; [exact H3|]. split; [exact H4|].
  exact (print_grid_ascii_injective three_solutions sample_solution H1 H2 H3 H4).
Defined.

